(** * updateapilist.py: the README API-table updater

    A shallow embedding of [scripts/updateapilist.py] and the properties of
    its components: the client descriptor and its ordering, the repository
    filter, the metadata fetcher, the table generator and the document
    patcher.

    Conventions of the embedding.
    - A Python [str] is a [string]: the sequence of the bytes of its UTF-8
      encoding.  Prefix tests, substring replacement and the lexicographic
      order agree on code points and on UTF-8 bytes.
    - A text file that is read is the list of the lines that iterating
      over it in text mode yields (each line carries its line feed; Python
      has translated the newlines by then); a file that is written is the
      list of the strings passed to [write], in order.  The embedding
      stops there: it follows neither the strings to the bytes of the file
      nor a failure of the file system during a read or a write (the script
      truncates the file when it opens it for writing).  What a later read
      makes of written strings is [reread].
    - A computation that touches the environment, the network or the file
      system is a function from a [world] to an [outcome] and a new world;
      the [while] loop of [all_clients] takes a bound on its iterations. *)

From stdpp Require Import gmap strings list sorting.
From Stdlib Require Import Ascii ZArith Lia.

#[local] Set Warnings "-register-all".

(** ** Python strings *)

(** The line feed, Python's ["\n"]. *)
Definition LF : string := String "010"%char "".

(** [s.startswith(p)]. *)
Definition startswith (s p : string) : bool := String.prefix p s.

(** ** The document patcher *)

Definition START_MARKER : string := ".. API_TABLE_START".
Definition END_MARKER : string := ".. API_TABLE_END".

(** The two variables the loop of [replace_content_in_readme] updates. *)
Record patcher := Patcher {
  newlines : list string;
  repl_open : bool
}.

(** One iteration of [for line in f], lines 58 to 67 of the script. *)
Definition replace_line (content_rows : list string) (st : patcher)
    (line : string) : patcher :=
  let newlines1 :=
    if negb (repl_open st) then newlines st ++ [line] else newlines st in
  if startswith line START_MARKER then
    Patcher (newlines1 ++ content_rows) true
  else if startswith line END_MARKER then
    Patcher ((newlines1 ++ [LF]) ++ [line]) false
  else
    Patcher newlines1 (repl_open st).

(** The whole loop, from a given state of the two variables. *)
Definition replace_lines (content_rows : list string) (st : patcher)
    (f : list string) : patcher :=
  foldl (replace_line content_rows) st f.

(** The list [newlines] once the loop that started with [newlines = []] and
    [repl_open = False] has read every line of [f]. *)
Definition rewritten (content_rows f : list string) : list string :=
  newlines (replace_lines content_rows (Patcher [] false) f).

(** What the loop appends to [newlines] while it reads the lines [f], when
    it starts with [repl_open = opened]. *)
Definition emitted (content_rows : list string) (opened : bool)
    (f : list string) : list string :=
  newlines (replace_lines content_rows (Patcher [] opened) f).

(** A line that starts with neither marker. *)
Definition plain (line : string) : Prop :=
  startswith line START_MARKER = false ∧ startswith line END_MARKER = false.

(** The number of lines of [f] that start with the end marker. *)
Definition end_marker_lines (f : list string) : nat :=
  length (filter (λ line, startswith line END_MARKER = true) f).

(** ** Exceptions, outcomes and the world *)

(** The exceptions the script can end with.  [MissingGithubToken] is the
    script's own class (a [ValueError]); the others are Python's and the
    [requests] library's. *)
Inductive exn : Type :=
  | MissingGithubToken (message : string)
  | KeyError (key : string)
  | TypeError
  | AttributeError
  | NameError
  | RequestException
  | JSONDecodeError
  | FileNotFoundError.

(** What running a piece of the script gives: a value, an exception,
    [OutOfFuel] when the bound on the loop of [all_clients] is reached
    before the loop ends, or [Untyped] when the run leaves the embedding: a
    descriptor would hold a value that is not a string, against the
    annotations of the class.  The script goes on in that case; the
    embedding does not follow it, and no property below speaks of such a
    run. *)
Inductive outcome (A : Type) : Type :=
  | Return (a : A)
  | Raise (e : exn)
  | OutOfFuel
  | Untyped.
Arguments Return {A} a.
Arguments Raise {A} e.
Arguments OutOfFuel {A}.
Arguments Untyped {A}.

#[export] Instance outcome_ret : MRet outcome := λ A a, Return a.
#[export] Instance outcome_bind : MBind outcome := λ A B k m,
  match m with
  | Return a => k a
  | Raise e => Raise e
  | OutOfFuel => OutOfFuel
  | Untyped => Untyped
  end.

(** A decoded JSON document, as [response.json()] returns it; the numbers
    are the integers (the script reads no number). *)
Inductive json : Type :=
  | JNull
  | JBool (b : bool)
  | JInt (z : Z)
  | JStr (s : string)
  | JList (l : list json)
  | JDict (d : gmap string json).

(** An HTTP request of the script: [requests.get(url, headers=headers)]. *)
Record request := Request {
  url : string;
  headers : gmap string string
}.

(** What the script reads of a [requests.Response]: the status code, the
    decoded body ([None] when the body is not JSON, so that [.json()]
    raises), and the URL of each relation of the [Link] header. *)
Record response := Response {
  status_code : Z;
  body : option json;
  links : gmap string string
}.

(** The world the script runs in: the process environment, the file
    [README.rst] of the working directory ([None] when there is none), the
    servers (what they answer to a request, given the requests sent so
    far; [inl] is a failed request), and the requests sent so far. *)
Record world := World {
  environ : gmap string string;
  README : option (list string);
  internet : list request → request → exn + response;
  sent : list request
}.

(** Computations in a world. *)
Definition M (A : Type) : Type := world → outcome A * world.

#[export] Instance M_ret : MRet M := λ A a w, (Return a, w).
#[export] Instance M_bind : MBind M := λ A B k m w,
  match m w with
  | (Return a, w') => k a w'
  | (Raise e, w') => (Raise e, w')
  | (OutOfFuel, w') => (OutOfFuel, w')
  | (Untyped, w') => (Untyped, w')
  end.

(** A computation that does not touch the world. *)
Definition lift {A} (o : outcome A) : M A := λ w, (o, w).

(** [requests.get(url, headers=headers)]: the request is sent and recorded,
    and the servers answer or the request fails. *)
Definition requests_get (u : string) (h : gmap string string) : M response :=
  λ w,
    let r := Request u h in
    let w' := World (environ w) (README w) (internet w) (sent w ++ [r]) in
    match internet w (sent w) r with
    | inl e => (Raise e, w')
    | inr resp => (Return resp, w')
    end.

(** [response.json()]. *)
Definition response_json (r : response) : outcome json :=
  match body r with
  | Some j => Return j
  | None => Raise JSONDecodeError
  end.

(** [d[key]] for a string [key]: only a dict can be indexed by a string. *)
Definition getitem (d : json) (key : string) : outcome json :=
  match d with
  | JDict m =>
      match m !! key with
      | Some v => Return v
      | None => Raise (KeyError key)
      end
  | _ => Raise TypeError
  end.

(** The receiver of a string method ([.replace], [.startswith]): any other
    value has no such attribute. *)
Definition str_method (v : json) : outcome string :=
  match v with
  | JStr s => Return s
  | _ => Raise AttributeError
  end.

(** A value stored in an attribute the class declares as [str].  Python
    stores whatever value it is given; the embedding keeps the declared
    type, and a run that stores another value is [Untyped]. *)
Definition str_attribute (v : json) : outcome string :=
  match v with
  | JStr s => Return s
  | _ => Untyped
  end.

(** Python's truth value of a decoded JSON value. *)
Definition truthy (v : json) : bool :=
  match v with
  | JNull => false
  | JBool b => b
  | JInt z => negb (z =? 0)%Z
  | JStr s => negb (String.eqb s "")
  | JList l => negb (bool_decide (l = []))
  | JDict d => negb (bool_decide (dom d = ∅))
  end.

(** ** [str.replace] *)

(** [replace_from old new skip s]: the scan of [s] from left to right; [skip]
    counts the characters of an occurrence of [old] found earlier that are
    still to be passed over, so that occurrences do not overlap. *)
Fixpoint replace_from (old new : string) (skip : nat) (s : string) : string :=
  match s with
  | EmptyString => EmptyString
  | String c s' =>
      match skip with
      | S k => replace_from old new k s'
      | O =>
          if String.prefix old s
          then new +:+ replace_from old new (String.length old - 1) s'
          else String c (replace_from old new 0 s')
      end
  end.

(** For an empty [old], Python puts [new] before every character and at the
    end. *)
Fixpoint replace_empty (new s : string) : string :=
  match s with
  | EmptyString => new
  | String c s' => new +:+ String c (replace_empty new s')
  end.

(** [s.replace(old, new)]: every occurrence of [old] in [s], leftmost first
    and without overlap, becomes [new]. *)
Definition replace (s old new : string) : string :=
  match old with
  | EmptyString => replace_empty new s
  | _ => replace_from old new 0 s
  end.

(** ** The client descriptor *)

Record CloudClient := Build_CloudClient {
  repo : string;
  title : string;
  release_level : string;
  distribution_name : string
}.

(** [CloudClient.__init__(self, repo)].  The four assignments are made in
    the order of the source, each raising what Python raises; the values
    are then given the declared type, so that every [Return] and every
    [Raise] here is what [__init__] does on that document. *)
Definition CloudClient_init (r : json) : outcome CloudClient :=
  v_repo ← getitem r "repo";
  v_name ← getitem r "name_pretty";
  name_pretty ← str_method v_name;
  let a_title := replace (replace name_pretty "Google " "") "Cloud " "" in
  v_level ← getitem r "release_level";
  v_dist ← getitem r "distribution_name";
  a_repo ← str_attribute v_repo;
  a_level ← str_attribute v_level;
  a_dist ← str_attribute v_dist;
  mret (Build_CloudClient a_repo a_title a_level a_dist).

(** [CloudClient.__lt__(self, other)]; [<] on strings is the lexicographic
    order. *)
Definition CloudClient_lt (self other : CloudClient) : bool :=
  if String.eqb (release_level self) (release_level other)
  then String.ltb (title self) (title other)
  else String.ltb (release_level other) (release_level self).

(** "Not after": [a] may stand before [b] in a sorted list. *)
Definition not_after (a b : CloudClient) : Prop := CloudClient_lt b a = false.

(** [sorted(clients)].  Python's sort is stable and compares with [__lt__]
    only; straight insertion, taking the elements from the last to the
    first, is such a sort. *)
Fixpoint insert_sorted (x : CloudClient) (l : list CloudClient)
    : list CloudClient :=
  match l with
  | [] => [x]
  | y :: l' =>
      if CloudClient_lt y x then y :: insert_sorted x l' else x :: y :: l'
  end.

Definition sorted (clients : list CloudClient) : list CloudClient :=
  foldr insert_sorted [] clients.

(** ** The table generator *)

(** [client_row(client)]: the two strings of the table row, and the badge
    definition. *)
Definition client_row (client : CloudClient) : list string * string :=
  let pypi_badge :=
    ".. |PyPI-" +:+ distribution_name client
      +:+ "| image:: https://img.shields.io/pypi/v/"
      +:+ distribution_name client +:+ ".svg" +:+ LF
      +:+ "     :target: https://pypi.org/project/"
      +:+ distribution_name client +:+ LF in
  let content_row :=
    [ "   * - `" +:+ title client +:+ " <https://github.com/"
        +:+ repo client +:+ ">`_" +:+ LF;
      "     - " +:+ "|" +:+ release_level client
        +:+ ("|" +:+ LF +:+ "     - |PyPI-" +:+ distribution_name client
               +:+ "|" +:+ LF) ] in
  (content_row, pypi_badge).

(** The two components of [client_row(client)], under the names the script
    gives them. *)
Definition content_row (client : CloudClient) : list string :=
  fst (client_row client).
Definition pypi_badge (client : CloudClient) : string :=
  snd (client_row client).

(** The first value of [content_rows] in [generate_table_contents]. *)
Definition table_header : list string :=
  [ LF;
    ".. list-table::" +:+ LF;
    "   :header-rows: 1" +:+ LF;
    LF;
    "   * - Client" +:+ LF;
    "     - Release Level" +:+ LF;
    "     - Version" +:+ LF ].

(** One iteration of the loop of [generate_table_contents] on the pair
    [(content_rows, pypi_links)]. *)
Definition add_client (acc : list string * list string) (client : CloudClient)
    : list string * list string :=
  let '(content_rows, pypi_links) := acc in
  let '(content_row, pypi_link) := client_row client in
  (content_rows ++ content_row, pypi_links ++ [pypi_link]).

Definition generate_table_contents (clients : list CloudClient)
    : list string :=
  let '(content_rows, pypi_links) :=
    foldl add_client (table_header, [LF]) clients in
  content_rows ++ pypi_links.

(** ** The metadata fetcher *)

(** [REPO_METADATA_URL_FORMAT.format(repo_slug=repo_slug)]. *)
Definition REPO_METADATA_URL_FORMAT (repo_slug : string) : string :=
  "https://raw.githubusercontent.com/" +:+ repo_slug
    +:+ "/master/.repo-metadata.json".

(** [requests.codes.ok]. *)
Definition codes_ok : Z := 200.

(** [client_for_repo(repo_slug)]: [None] is the bare [return] of line 116. *)
Definition client_for_repo (repo_slug : string) : M (option CloudClient) :=
  resp ← requests_get (REPO_METADATA_URL_FORMAT repo_slug) ∅;
  if negb (status_code resp =? codes_ok)%Z then mret None
  else
    doc ← lift (response_json resp);
    client ← lift (CloudClient_init doc);
    mret (Some client).

(** ** The repository filter *)

(** [REPO_LIST_JSON.format(page_number=1)]. *)
Definition REPO_LIST_JSON_page_1 : string :=
  "https://api.github.com/orgs/googleapis/repos?per_page=100&page=1".

Definition REPO_EXCLUSION : list string :=
  [ "googleapis/python-api-core";
    "googleapis/python-cloud-core";
    "googleapis/python-org-policy";
    "googleapis/python-os-config";
    "googleapis/python-access-context-manager";
    "googleapis/python-api-common-protos";
    "googleapis/python-test-utils" ].

(** [allowed_repo(repo)]; [and] evaluates its right operand only when the
    left one is true. *)
Definition allowed_repo (r : json) : outcome bool :=
  v_name ← getitem r "full_name";
  full_name ← str_method v_name;
  if negb (startswith full_name "googleapis/python-") then mret false
  else if bool_decide (full_name ∈ REPO_EXCLUSION) then mret false
  else
    v_archived ← getitem r "archived";
    mret (negb (truthy v_archived)).

(** ** The repository lister *)

(** The elements a [for] loop over a decoded JSON value visits: those of a
    list, the keys of a dict, the characters of a string; the other values
    are not iterable.  (The keys and the characters are strings, which
    [allowed_repo] cannot index: their order plays no part.) *)
Definition iterate (v : json) : outcome (list json) :=
  match v with
  | JList l => Return l
  | JDict d => Return (JStr <$> elements (dom d))
  | JStr s =>
      Return ((λ c, JStr (String c "")) <$> String.list_ascii_of_string s)
  | _ => Raise TypeError
  end.

(** [len(v)]. *)
Definition len (v : json) : outcome nat :=
  match v with
  | JList l => Return (length l)
  | JDict d => Return (size (dom d))
  | JStr s => Return (String.length s)
  | _ => Raise TypeError
  end.

(** The list comprehension of [get_clients_batch_from_response_json], over
    the elements already taken from [response_json]. *)
Fixpoint clients_batch (repos : list json) : M (list (option CloudClient)) :=
  match repos with
  | [] => mret []
  | r :: repos' =>
      allowed ← lift (allowed_repo r);
      if (allowed : bool) then
        v_name ← lift (getitem r "full_name");
        repo_slug ← lift (str_method v_name);
        client ← client_for_repo repo_slug;
        batch ← clients_batch repos';
        mret (client :: batch)
      else clients_batch repos'
  end.

Definition get_clients_batch_from_response_json (response_json : json)
    : M (list (option CloudClient)) :=
  repos ← lift (iterate response_json);
  clients_batch repos.

(** The [while] loop of [all_clients], at most [fuel] iterations of it.
    [resp] is the variable [response], unbound ([None]) before the first
    request. *)
Fixpoint all_clients_loop (fuel : nat) (token : string)
    (clients : list (option CloudClient)) (first_request : bool)
    (resp : option response) : M (list (option CloudClient)) :=
  again ← lift (if first_request then Return true
                else match resp with
                     | Some r =>
                         Return (bool_decide (is_Some (links r !! "next")))
                     | None => Raise NameError
                     end);
  if (again : bool) then
    match fuel with
    | O => lift OutOfFuel
    | S fuel' =>
        u ← lift (if first_request then Return REPO_LIST_JSON_page_1
                  else match resp ≫= λ r, links r !! "next" with
                       | Some u => Return u
                       | None => Raise (KeyError "next")
                       end);
        r ← requests_get u {[ "Authorization" := "token " +:+ token ]};
        page ← lift (response_json r);
        n ← lift (len page);
        if (n =? 0)%nat then mret clients
        else
          batch ← get_clients_batch_from_response_json page;
          all_clients_loop fuel' token (clients ++ batch) false (Some r)
    end
  else mret clients.

(** [os.environ[key]]. *)
Definition environ_getitem (key : string) : M string :=
  λ w, match environ w !! key with
       | Some v => (Return v, w)
       | None => (Raise (KeyError key), w)
       end.

(** [all_clients()]; the last line keeps the clients that are not [None]. *)
Definition all_clients (fuel : nat) : M (list CloudClient) :=
  token ← environ_getitem "GITHUB_TOKEN";
  clients ← all_clients_loop fuel token [] true None;
  mret (omap id clients).

(** ** The document patcher on the file, and the script *)

(** [replace_content_in_readme(content_rows)]: [README.rst] is read line by
    line, then written again from [newlines].  [README w] is the list of
    lines read; afterwards it is the list of strings written, in a run in
    which opening and writing the file succeed. *)
Definition replace_content_in_readme (content_rows : list string) : M unit :=
  λ w, match README w with
       | None => (Raise FileNotFoundError, w)
       | Some f =>
           (Return (),
            World (environ w) (Some (rewritten content_rows f))
                  (internet w) (sent w))
       end.

(** The statements of the module, lines 166 to 171. *)
Definition updateapilist (fuel : nat) : M unit :=
  λ w,
    if negb (bool_decide (is_Some (environ w !! "GITHUB_TOKEN"))) then
      (Raise (MissingGithubToken "Please include a GITHUB_TOKEN env var."), w)
    else
      (clients ← all_clients fuel;
       let clients := sorted clients in
       let table_contents := generate_table_contents clients in
       replace_content_in_readme table_contents) w.

(** ** What the servers hold *)

(** The servers answer the request [r] with [resp], whatever was sent
    before. *)
Definition answers (net : list request → request → exn + response)
    (r : request) (resp : response) : Prop :=
  ∀ history, net history r = inr resp.

(** The request [client_for_repo(repo_slug)] sends. *)
Definition metadata_request (repo_slug : string) : request :=
  Request (REPO_METADATA_URL_FORMAT repo_slug) ∅.

(** The request [all_clients] sends for the page at [u]. *)
Definition page_request (token u : string) : request :=
  Request u {[ "Authorization" := "token " +:+ token ]}.

(** The metadata of a repository as the servers hold it: a miss (any status
    but 200), or a document a descriptor can be built from. *)
Inductive fetched (net : list request → request → exn + response)
    : string → option CloudClient → Prop :=
  | fetched_miss repo_slug resp :
      answers net (metadata_request repo_slug) resp →
      status_code resp ≠ codes_ok →
      fetched net repo_slug None
  | fetched_hit repo_slug resp doc client :
      answers net (metadata_request repo_slug) resp →
      status_code resp = codes_ok →
      body resp = Some doc →
      CloudClient_init doc = Return client →
      fetched net repo_slug (Some client).

(** The summary records of one page, with what is fetched for the allowed
    ones and the requests that takes. *)
Inductive batch_of (net : list request → request → exn + response)
    : list json → list (option CloudClient) → list request → Prop :=
  | batch_nil : batch_of net [] [] []
  | batch_skip r repos clients reqs :
      allowed_repo r = Return false →
      batch_of net repos clients reqs →
      batch_of net (r :: repos) clients reqs
  | batch_fetch r repo_slug repos client clients reqs :
      allowed_repo r = Return true →
      getitem r "full_name" = Return (JStr repo_slug) →
      fetched net repo_slug client →
      batch_of net repos clients reqs →
      batch_of net (r :: repos) (client :: clients)
        (metadata_request repo_slug :: reqs).

(** The pages of the listing from the URL [u] on: what is fetched for their
    repositories, the requests sent, and the number of pages requested.
    The listing ends with an empty page or with a page that has no "next"
    link. *)
Inductive pages_from (net : list request → request → exn + response)
    (token : string)
    : string → list (option CloudClient) → list request → nat → Prop :=
  | pages_empty u resp page :
      answers net (page_request token u) resp →
      body resp = Some page →
      len page = Return 0 →
      pages_from net token u [] [page_request token u] 1
  | pages_last u resp page n repos clients reqs :
      answers net (page_request token u) resp →
      body resp = Some page →
      len page = Return (S n) →
      iterate page = Return repos →
      batch_of net repos clients reqs →
      links resp !! "next" = None →
      pages_from net token u clients (page_request token u :: reqs) 1
  | pages_next u resp page n repos clients reqs u' clients' reqs' k :
      answers net (page_request token u) resp →
      body resp = Some page →
      len page = Return (S n) →
      iterate page = Return repos →
      batch_of net repos clients reqs →
      links resp !! "next" = Some u' →
      pages_from net token u' clients' reqs' k →
      pages_from net token u (clients ++ clients')
        (page_request token u :: reqs ++ reqs') (S k).

(** The condition under which the loop of [all_clients] requests the page
    at [u] next. *)
Definition next_page (first_request : bool) (resp : option response)
    (u : string) : Prop :=
  (first_request = true ∧ u = REPO_LIST_JSON_page_1)
  ∨ (first_request = false
     ∧ ∃ r, resp = Some r ∧ links r !! "next" = Some u).

(** The world [w] after the requests [reqs] have been sent. *)
Definition after_requests (w : world) (reqs : list request) : world :=
  World (environ w) (README w) (internet w) (sent w ++ reqs).

(** ** Worlds to run the script in *)

(** Servers that cannot be reached: every request fails. *)
Definition offline : list request → request → exn + response :=
  λ _ _, inl RequestException.

(** A world with no environment variable and no network, and [README.rst]
    holding the lines [f]. *)
Definition readme_only (f : list string) : world :=
  World ∅ (Some f) offline [].

(** A world with a token, a [README.rst] and a listing of two pages.  The
    first page lists a repository with metadata, one whose metadata request
    gives 404, and one outside the family; the second page lists an excluded
    repository and one with metadata. *)
Definition sample_summary (full_name : string) : json :=
  JDict {[ "full_name" := JStr full_name; "archived" := JBool false ]}.

Definition sample_metadata (v_repo name_pretty v_level v_dist : string)
    : json :=
  JDict {[ "repo" := JStr v_repo; "name_pretty" := JStr name_pretty;
           "release_level" := JStr v_level;
           "distribution_name" := JStr v_dist ]}.

Definition sample_page_2 : string :=
  "https://api.github.com/organizations/16785467/repos?per_page=100&page=2".

Definition sample_internet : list request → request → exn + response :=
  λ _ r,
    if String.eqb (url r) REPO_LIST_JSON_page_1 then
      inr (Response 200
             (Some (JList [ sample_summary "googleapis/python-bigquery";
                            sample_summary "googleapis/python-missing";
                            sample_summary "googleapis/java-storage" ]))
             {[ "next" := sample_page_2 ]})
    else if String.eqb (url r) sample_page_2 then
      inr (Response 200
             (Some (JList [ sample_summary "googleapis/python-api-core";
                            sample_summary "googleapis/python-storage" ]))
             ∅)
    else if String.eqb (url r)
              (REPO_METADATA_URL_FORMAT "googleapis/python-bigquery") then
      inr (Response 200
             (Some (sample_metadata "googleapis/python-bigquery"
                      "Google Cloud BigQuery" "beta" "google-cloud-bigquery"))
             ∅)
    else if String.eqb (url r)
              (REPO_METADATA_URL_FORMAT "googleapis/python-storage") then
      inr (Response 200
             (Some (sample_metadata "googleapis/python-storage"
                      "Google Cloud Storage" "stable" "google-cloud-storage"))
             ∅)
    else inr (Response 404 None ∅).

Definition sample_world : world :=
  World {[ "GITHUB_TOKEN" := "secret" ]}
        (Some [ "Title" +:+ LF; START_MARKER +:+ LF; "old" +:+ LF;
                END_MARKER +:+ LF ])
        sample_internet [].

Definition sample_bigquery : CloudClient :=
  Build_CloudClient "googleapis/python-bigquery" "BigQuery" "beta"
    "google-cloud-bigquery".

Definition sample_storage : CloudClient :=
  Build_CloudClient "googleapis/python-storage" "Storage" "stable"
    "google-cloud-storage".

(** Servers whose listing never ends. *)
Definition endless_internet : list request → request → exn + response :=
  λ _ r,
    inr (Response 200 (Some (JList [sample_summary "googleapis/java-storage"]))
           {[ "next" := url r +:+ "&again" ]}).

(** Servers that hold a metadata document without a distribution name. *)
Definition incomplete_internet : list request → request → exn + response :=
  λ _ r,
    inr (Response 200
           (Some (JDict {[ "repo" := JStr "googleapis/python-storage";
                           "name_pretty" := JStr "Google Cloud Storage";
                           "release_level" := JStr "stable" ]}))
           ∅).

(** Servers that refuse the token, as GitHub does: status 401 and a JSON
    object with a message. *)
Definition bad_credentials : gmap string json :=
  {[ "message" := JStr "Bad credentials" ]}.

Definition bad_credentials_world : world :=
  World {[ "GITHUB_TOKEN" := "expired" ]} (README sample_world)
        (λ _ _, inr (Response 401 (Some (JDict bad_credentials)) ∅)) [].

(** ** Further notions used to state properties *)

(** A managed region of a document and the lines that follow it: the
    start-marker line, the lines in between, the end-marker line, and the
    lines up to the next region. *)
Record region := Region {
  region_start : string;
  region_old : list string;
  region_end : string;
  region_after : list string
}.

Definition region_lines (r : region) : list string :=
  [region_start r] ++ region_old r ++ [region_end r] ++ region_after r.

(** The region once its content is replaced. *)
Definition region_replaced (content_rows : list string) (r : region)
    : list string :=
  [region_start r] ++ content_rows ++ [LF; region_end r] ++ region_after r.

Definition region_well_formed (r : region) : Prop :=
  startswith (region_start r) START_MARKER = true
  ∧ Forall plain (region_old r)
  ∧ startswith (region_end r) END_MARKER = true
  ∧ Forall plain (region_after r).

(** The replaced region, read as a region again. *)
Definition region_with (content_rows : list string) (r : region) : region :=
  Region (region_start r) (content_rows ++ [LF]) (region_end r)
         (region_after r).

(** [old] occurs in [s]. *)
Definition occurs (old s : string) : Prop :=
  ∃ p q, s = p +:+ old +:+ q.

(** The requests for the pages of the listing: the first page, and the
    "next" link of an answer of the servers to such a request; each carries
    the token in its [Authorization] header. *)
Inductive listing_request (net : list request → request → exn + response)
    (token : string) : request → Prop :=
  | listing_first :
      listing_request net token (page_request token REPO_LIST_JSON_page_1)
  | listing_next req history resp u :
      listing_request net token req →
      net history req = inr resp →
      links resp !! "next" = Some u →
      listing_request net token (page_request token u).

(** [resp] is an answer of the servers to a request for a page. *)
Definition answered (net : list request → request → exn + response)
    (token : string) (resp : response) : Prop :=
  ∃ req history, listing_request net token req ∧ net history req = inr resp.

(** [r] is an element of a page of the listing. *)
Definition listed (net : list request → request → exn + response)
    (token : string) (r : json) : Prop :=
  ∃ resp page repos,
    answered net token resp ∧ body resp = Some page
    ∧ iterate page = Return repos ∧ r ∈ repos.

(** The requests the script may send with the token [token]: a request for
    a page of the listing; or, with no header, the metadata of a listed
    repository whose full name has the prefix, is not excluded, and whose
    "archived" value is false. *)
Definition script_request (net : list request → request → exn + response)
    (token : string) (req : request) : Prop :=
  listing_request net token req
  ∨ (∃ r repo_slug archived,
       listed net token r
       ∧ getitem r "full_name" = Return (JStr repo_slug)
       ∧ startswith repo_slug "googleapis/python-" = true
       ∧ (repo_slug ∉ REPO_EXCLUSION)
       ∧ getitem r "archived" = Return archived
       ∧ truthy archived = false
       ∧ req = metadata_request repo_slug).

(** In a world whose servers are [net], the computation [m] leaves the
    environment, [README.rst] and the servers as they are, the requests it
    sends all satisfy [P], and a value it returns satisfies [Q]. *)
Definition triple {A} (net : list request → request → exn + response)
    (P : request → Prop) (Q : A → Prop) (m : M A) : Prop :=
  ∀ w, internet w = net →
    environ (snd (m w)) = environ w
    ∧ README (snd (m w)) = README w
    ∧ internet (snd (m w)) = internet w
    ∧ (∃ reqs, sent (snd (m w)) = sent w ++ reqs ∧ Forall P reqs)
    ∧ ∀ a, fst (m w) = Return a → Q a.

(** *** Reading a written file again *)

(** The carriage return. *)
Definition CR : ascii := "013"%char.

(** The text that the strings [written] make, one after the other. *)
Definition text_of (written : list string) : string :=
  foldr String.append "" written.

(** The lines of a text: each ends after its line feed; the last one may
    have none.  This is what iterating over a file in text mode yields for
    a text without carriage return. *)
Fixpoint lines_of (text : string) : list string :=
  match text with
  | EmptyString => []
  | String c text' =>
      if Ascii.eqb c "010" then String c "" :: lines_of text'
      else match lines_of text' with
           | [] => [String c ""]
           | line :: rest => String c line :: rest
           end
  end.

(** What a later run reads, line by line, from the file that the strings
    [written] were written to, when none of them holds a carriage return
    (the newline translations of writing and reading then cancel). *)
Definition reread (written : list string) : list string :=
  lines_of (text_of written).

(** A line as reading in text mode yields it, the last line of a file that
    does not end with a line feed apart: no carriage return, and one line
    feed, at the end. *)
Fixpoint is_line (s : string) : bool :=
  match s with
  | EmptyString => false
  | String c EmptyString => Ascii.eqb c "010"
  | String c s' =>
      negb (Ascii.eqb c "010") && negb (Ascii.eqb c CR) && is_line s'
  end.

(** A text of whole lines: no carriage return, and a line feed at the end
    unless it is empty. *)
Fixpoint whole_lines (s : string) : bool :=
  match s with
  | EmptyString => true
  | String c EmptyString => Ascii.eqb c "010"
  | String c s' => negb (Ascii.eqb c CR) && whole_lines s'
  end.



(** The lines of a region are lines as a read yields them. *)
Definition region_of_lines (r : region) : Prop :=
  is_line (region_start r) = true
  ∧ Forall (λ line, is_line line = true) (region_old r)
  ∧ is_line (region_end r) = true
  ∧ Forall (λ line, is_line line = true) (region_after r).

(** [old] occurs in [s], as a test. *)
Fixpoint occursb (old s : string) : bool :=
  String.prefix old s
  || match s with
     | EmptyString => false
     | String _ s' => occursb old s'
     end.

(** The characters of a string. *)
Definition chars (s : string) : list ascii := String.list_ascii_of_string s.

(** The sort key of a descriptor. *)
Definition sort_key (c : CloudClient) : string * string :=
  (release_level c, title c).

(** * Properties *)

(** ** The embedding on concrete inputs *)

Example replace_no_overlap : replace "aaa" "aa" "b" = "ba".
Proof. reflexivity. Qed.

Example replace_empty_pattern : replace "abc" "" "-" = "-a-b-c-".
Proof. reflexivity. Qed.

Example replace_leaves_new_occurrence :
  replace "GoGoogle ogle Maps" "Google " "" = "Google Maps".
Proof. reflexivity. Qed.

Example allowed_repo_short_circuit :
  allowed_repo (JDict {[ "full_name" := JStr "googleapis/java-storage" ]})
    = Return false
  ∧ allowed_repo (JDict {[ "full_name" := JStr "googleapis/python-storage" ]})
    = Raise (KeyError "archived")
  ∧ allowed_repo (JStr "message") = Raise TypeError.
Proof. by vm_compute. Qed.

Example generate_table_contents_one_client :
  generate_table_contents [sample_storage]
    = [ LF;
        ".. list-table::" +:+ LF;
        "   :header-rows: 1" +:+ LF;
        LF;
        "   * - Client" +:+ LF;
        "     - Release Level" +:+ LF;
        "     - Version" +:+ LF;
        "   * - `Storage <https://github.com/googleapis/python-storage>`_"
          +:+ LF;
        "     - |stable|" +:+ LF
          +:+ "     - |PyPI-google-cloud-storage|" +:+ LF;
        LF;
        ".. |PyPI-google-cloud-storage| image:: "
          +:+ "https://img.shields.io/pypi/v/google-cloud-storage.svg" +:+ LF
          +:+ "     :target: https://pypi.org/project/google-cloud-storage"
          +:+ LF ].
Proof. reflexivity. Qed.

Example CloudClient_init_order :
  CloudClient_init (JDict {[ "repo" := JInt 7 ]})
    = Raise (KeyError "name_pretty")
  ∧ CloudClient_init (JDict {[ "repo" := JStr "r"; "name_pretty" := JNull ]})
    = Raise AttributeError
  ∧ CloudClient_init (JList []) = Raise TypeError
  ∧ CloudClient_init
      (sample_metadata "r" "Google Cloud Storage" "stable" "google-x")
    = Return (Build_CloudClient "r" "Storage" "stable" "google-x")
  ∧ CloudClient_init
      (JDict {[ "repo" := JInt 7; "name_pretty" := JStr "Storage";
                "release_level" := JStr "stable";
                "distribution_name" := JStr "google-x" ]})
    = Untyped.
Proof. by vm_compute. Qed.

Example all_clients_out_of_fuel :
  fst (all_clients 1 sample_world) = OutOfFuel.
Proof. by vm_compute. Qed.

Example updateapilist_sample :
  fst (updateapilist 2 sample_world) = Return ()
  ∧ README (snd (updateapilist 2 sample_world))
    = Some ([ "Title" +:+ LF; START_MARKER +:+ LF ]
              ++ generate_table_contents [sample_storage; sample_bigquery]
              ++ [ LF; END_MARKER +:+ LF ])
  ∧ length (sent (snd (updateapilist 2 sample_world))) = 5.
Proof. by vm_compute. Qed.

(** ** Strings *)

Lemma prefix_append (p s : string) :
  String.prefix p s = true ↔ ∃ r, s = p +:+ r.
Proof.
  revert s. induction p as [|a p IH]; intros s.
  - split; [intros _; exists s; reflexivity | intros _; by destruct s].
  - destruct s as [|b s]; simpl.
    + split; [done | intros [r Hr]; discriminate Hr].
    + destruct (ascii_dec a b) as [->|Hab].
      * rewrite IH. split; intros [r Hr]; exists r.
        -- by rewrite Hr.
        -- by injection Hr.
      * split; [done | intros [r Hr]; injection Hr; congruence].
Qed.

(** No line starts with both markers. *)
Lemma end_marker_not_start (line : string) :
  startswith line END_MARKER = true → startswith line START_MARKER = false.
Proof.
  unfold startswith. intros [r ->]%prefix_append. reflexivity.
Qed.

Lemma start_marker_not_end (line : string) :
  startswith line START_MARKER = true → startswith line END_MARKER = false.
Proof.
  unfold startswith. intros [r ->]%prefix_append. reflexivity.
Qed.

(** ** The document patcher *)

Section Patcher.
Variable content_rows : list string.

(** The three kinds of line, in the state the loop is in. *)
Lemma replace_line_start n b line :
  startswith line START_MARKER = true →
  replace_line content_rows (Patcher n b) line =
    Patcher ((if b then n else n ++ [line]) ++ content_rows) true.
Proof.
  intros H. unfold replace_line; simpl. rewrite H. by destruct b.
Qed.

Lemma replace_line_end n b line :
  startswith line END_MARKER = true →
  replace_line content_rows (Patcher n b) line =
    Patcher ((if b then n else n ++ [line]) ++ [LF; line]) false.
Proof.
  intros H. unfold replace_line; simpl.
  rewrite (end_marker_not_start _ H), H.
  destruct b; simpl; by rewrite <- ?(assoc_L (++)).
Qed.

Lemma replace_line_plain n b line :
  plain line →
  replace_line content_rows (Patcher n b) line
    = Patcher (if b then n else n ++ [line]) b.
Proof.
  intros [Hs He]. unfold replace_line; simpl. rewrite Hs, He. by destruct b.
Qed.

(** The lines already in [newlines] are never touched again. *)
Lemma replace_line_emitted n b line :
  replace_line content_rows (Patcher n b) line =
    Patcher (n ++ newlines (replace_line content_rows (Patcher [] b) line))
            (repl_open (replace_line content_rows (Patcher [] b) line)).
Proof.
  unfold replace_line; simpl.
  destruct (startswith line START_MARKER), (startswith line END_MARKER),
    b; simpl; by rewrite <- ?(assoc_L (++)), ?(right_id_L [] (++)).
Qed.

Lemma replace_lines_app st f g :
  replace_lines content_rows st (f ++ g)
    = replace_lines content_rows (replace_lines content_rows st f) g.
Proof. apply foldl_app. Qed.

Lemma replace_lines_emitted n b f :
  replace_lines content_rows (Patcher n b) f =
    Patcher (n ++ emitted content_rows b f)
            (repl_open (replace_lines content_rows (Patcher [] b) f)).
Proof.
  unfold emitted. revert n b.
  induction f as [|line f IH]; intros n b; simpl.
  - by rewrite (right_id_L [] (++)).
  - rewrite (replace_line_emitted n). rewrite IH.
    destruct (replace_line content_rows (Patcher [] b) line)
      as [m b'] eqn:E; simpl.
    rewrite (IH m b'); simpl. by rewrite (assoc_L (++)).
Qed.

Lemma emitted_cons b line f :
  emitted content_rows b (line :: f) =
    newlines (replace_line content_rows (Patcher [] b) line)
      ++ emitted content_rows
           (repl_open (replace_line content_rows (Patcher [] b) line)) f.
Proof.
  unfold emitted at 1; simpl.
  destruct (replace_line content_rows (Patcher [] b) line)
    as [m b'] eqn:E; simpl.
  by rewrite replace_lines_emitted.
Qed.

Lemma emitted_app b f g :
  emitted content_rows b (f ++ g) =
    emitted content_rows b f
      ++ emitted content_rows
           (repl_open (replace_lines content_rows (Patcher [] b) f)) g.
Proof.
  unfold emitted at 1. rewrite replace_lines_app.
  rewrite (replace_lines_emitted [] b f); simpl.
  by rewrite replace_lines_emitted.
Qed.

(** Lines without a marker are copied while no replacement is open, and
    dropped while one is. *)
Lemma emitted_plain b f :
  Forall plain f →
  emitted content_rows b f = (if b then [] else f)
  ∧ repl_open (replace_lines content_rows (Patcher [] b) f) = b.
Proof.
  induction 1 as [|line f Hl Hf IH].
  - by destruct b.
  - rewrite emitted_cons. simpl.
    rewrite (replace_line_plain [] b line Hl); simpl.
    destruct IH as [IH1 IH2]. rewrite IH1.
    split; [by destruct b|].
    rewrite (replace_lines_emitted _ b f); simpl. exact IH2.
Qed.

(** The region between a start marker and the next end marker is replaced
    by the content rows and a blank line; the markers and everything
    around them stay. *)
Lemma rewritten_between_markers before start_line old end_line after :
  Forall plain before → startswith start_line START_MARKER = true →
  Forall plain old → startswith end_line END_MARKER = true →
  Forall plain after →
  rewritten content_rows
      (before ++ [start_line] ++ old ++ [end_line] ++ after)
    = before ++ [start_line] ++ content_rows ++ [LF; end_line] ++ after.
Proof.
  intros Hb Hs Ho He Ha.
  change (rewritten content_rows) with (emitted content_rows false).
  destruct (emitted_plain false before Hb) as [E0 E1].
  rewrite emitted_app, E0, E1. f_equal. simpl.
  rewrite emitted_cons, (replace_line_start [] false) by done; simpl.
  f_equal.
  destruct (emitted_plain true old Ho) as [E2 E3].
  rewrite emitted_app, E2, E3; simpl.
  f_equal.
  rewrite emitted_cons, (replace_line_end [] true) by done; simpl.
  do 2 f_equal. by apply emitted_plain.
Qed.

(** Each marker line and each content row adds to the lines that start with
    the end marker; no such line of the file is lost. *)
Lemma end_marker_lines_app (f g : list string) :
  end_marker_lines (f ++ g) = end_marker_lines f + end_marker_lines g.
Proof. unfold end_marker_lines. by rewrite filter_app, length_app. Qed.

Lemma end_marker_lines_cons (line : string) (f : list string) :
  end_marker_lines (line :: f)
    = (if startswith line END_MARKER then 1 else 0) + end_marker_lines f.
Proof.
  unfold end_marker_lines. rewrite filter_cons.
  destruct (startswith line END_MARKER); by case_decide.
Qed.

Lemma end_marker_lines_emitted b f :
  end_marker_lines f ≤ end_marker_lines (emitted content_rows b f).
Proof.
  revert b. induction f as [|line f IH]; intros b; [done|].
  rewrite emitted_cons, end_marker_lines_app, end_marker_lines_cons.
  destruct (startswith line END_MARKER) eqn:He.
  - rewrite (replace_line_end [] b) by done; simpl.
    specialize (IH false).
    destruct b; simpl; rewrite !end_marker_lines_cons, ?He; simpl; lia.
  - destruct (startswith line START_MARKER) eqn:Hs.
    + rewrite (replace_line_start [] b) by done; simpl.
      specialize (IH true). rewrite end_marker_lines_app.
      destruct b; simpl; rewrite ?end_marker_lines_cons, ?He; simpl; lia.
    + rewrite (replace_line_plain [] b) by done; simpl.
      specialize (IH b).
      destruct b; simpl; rewrite ?end_marker_lines_cons, ?He; simpl; lia.
Qed.

(** An end marker read while no replacement is open. *)
Lemma rewritten_stray_end_marker before end_line after :
  repl_open (replace_lines content_rows (Patcher [] false) before) = false →
  startswith end_line END_MARKER = true →
  rewritten content_rows (before ++ end_line :: after)
    = rewritten content_rows before ++ [end_line; LF; end_line]
        ++ emitted content_rows false after.
Proof.
  intros Hb He.
  change (rewritten content_rows) with (emitted content_rows false).
  rewrite emitted_app, Hb, emitted_cons.
  by rewrite (replace_line_end [] false).
Qed.

Lemma rewritten_stray_end_marker_changes before end_line after :
  repl_open (replace_lines content_rows (Patcher [] false) before) = false →
  startswith end_line END_MARKER = true →
  rewritten content_rows (before ++ end_line :: after)
    ≠ before ++ end_line :: after.
Proof.
  intros Hb He Heq.
  apply (f_equal end_marker_lines) in Heq.
  rewrite rewritten_stray_end_marker in Heq by done.
  rewrite !end_marker_lines_app, !end_marker_lines_cons, He in Heq.
  pose proof (end_marker_lines_emitted false before) as H1.
  pose proof (end_marker_lines_emitted false after) as H2.
  change (emitted content_rows false before)
    with (rewritten content_rows before) in H1.
  simpl in Heq. lia.
Qed.

(** A start marker, in either state of the loop. *)
Lemma rewritten_start_marker before start_line after :
  startswith start_line START_MARKER = true →
  rewritten content_rows (before ++ start_line :: after)
    = rewritten content_rows before
        ++ (if repl_open (replace_lines content_rows (Patcher [] false) before)
            then [] else [start_line])
        ++ content_rows ++ emitted content_rows true after.
Proof.
  intros Hs.
  change (rewritten content_rows) with (emitted content_rows false).
  rewrite emitted_app, emitted_cons.
  rewrite (replace_line_start [] _ _ Hs); simpl.
  by rewrite <- !(assoc_L (++)).
Qed.

End Patcher.

(** [replace_content_in_readme] on a world with a [README.rst]: the file is
    replaced by the rewritten lines, and nothing else changes. *)
Lemma replace_content_in_readme_rewrites content_rows w f :
  README w = Some f →
  replace_content_in_readme content_rows w
    = (Return (),
       World (environ w) (Some (rewritten content_rows f))
             (internet w) (sent w)).
Proof. intros H. unfold replace_content_in_readme. by rewrite H. Qed.

(** C1: when [README.rst] holds the lines [A], a start-marker line, [old1],
    [old2], an end-marker line and [B] (the four other lines starting with
    no marker), [replace_content_in_readme [X; Y]] rewrites it to exactly
    [A], the start-marker line, [X], [Y], a blank line, the end-marker line
    and [B]. *)
Theorem replace_content_in_readme_example
    (w : world) (A start_line old1 old2 end_line B X Y : string) :
  README w = Some [A; start_line; old1; old2; end_line; B] →
  plain A → startswith start_line START_MARKER = true →
  plain old1 → plain old2 →
  startswith end_line END_MARKER = true → plain B →
  replace_content_in_readme [X; Y] w
    = (Return (),
       World (environ w) (Some [A; start_line; X; Y; LF; end_line; B])
             (internet w) (sent w)).
Proof.
  intros Hf HA Hs H1 H2 He HB.
  rewrite (replace_content_in_readme_rewrites _ _ _ Hf). do 3 f_equal.
  apply (rewritten_between_markers [X; Y] [A] start_line [old1; old2]
           end_line [B]); auto.
Qed.

Lemma replace_content_in_readme_example_witness :
  replace_content_in_readme ["X" +:+ LF; "Y" +:+ LF]
      (readme_only [ "A" +:+ LF; START_MARKER +:+ LF; "old1" +:+ LF;
                     "old2" +:+ LF; END_MARKER +:+ LF; "B" +:+ LF ])
    = (Return (),
       readme_only [ "A" +:+ LF; START_MARKER +:+ LF; "X" +:+ LF; "Y" +:+ LF;
                     LF; END_MARKER +:+ LF; "B" +:+ LF ]).
Proof.
  apply (replace_content_in_readme_example
           (readme_only [ "A" +:+ LF; START_MARKER +:+ LF; "old1" +:+ LF;
                          "old2" +:+ LF; END_MARKER +:+ LF; "B" +:+ LF ])
           ("A" +:+ LF) (START_MARKER +:+ LF) ("old1" +:+ LF) ("old2" +:+ LF)
           (END_MARKER +:+ LF) ("B" +:+ LF) ("X" +:+ LF) ("Y" +:+ LF));
    try split; reflexivity.
Defined.

(** C5, as the code has it: when no line of [README.rst] starts with the
    start marker and no line starts with the end marker,
    [replace_content_in_readme] writes back exactly the lines it read, in
    their order, and leaves the rest of the world as it was.  (The bytes of
    the file can still change: it is read and written in text mode, which
    translates newlines.) *)
Theorem replace_content_in_readme_no_marker content_rows w f :
  README w = Some f → Forall plain f →
  replace_content_in_readme content_rows w = (Return (), w).
Proof.
  intros Hf Hp.
  rewrite (replace_content_in_readme_rewrites _ _ _ Hf).
  change (rewritten content_rows f) with (emitted content_rows false f).
  destruct (emitted_plain content_rows false f Hp) as [-> _].
  destruct w; simpl in *. by rewrite Hf.
Qed.

Lemma replace_content_in_readme_no_marker_witness :
  replace_content_in_readme ["X" +:+ LF]
      (readme_only ["A" +:+ LF; "B" +:+ LF])
    = (Return (), readme_only ["A" +:+ LF; "B" +:+ LF]).
Proof.
  apply (replace_content_in_readme_no_marker _ _ ["A" +:+ LF; "B" +:+ LF]);
    [reflexivity|].
  repeat constructor.
Defined.

(** C5 fails when only one of the markers is missing.  With a start marker
    and no end marker, the content rows are inserted and the rest of the
    file is lost; with an end marker and no start marker, a blank line and
    a second copy of the end marker are added. *)
Lemma replace_content_in_readme_one_marker_changes :
  (Forall (λ line, startswith line END_MARKER = false)
     ["A" +:+ LF; START_MARKER +:+ LF; "B" +:+ LF]
   ∧ replace_content_in_readme ["X" +:+ LF]
       (readme_only ["A" +:+ LF; START_MARKER +:+ LF; "B" +:+ LF])
     = (Return (),
        readme_only ["A" +:+ LF; START_MARKER +:+ LF; "X" +:+ LF]))
  ∧ (Forall (λ line, startswith line START_MARKER = false)
       ["A" +:+ LF; END_MARKER +:+ LF; "B" +:+ LF]
     ∧ replace_content_in_readme ["X" +:+ LF]
         (readme_only ["A" +:+ LF; END_MARKER +:+ LF; "B" +:+ LF])
       = (Return (),
          readme_only [ "A" +:+ LF; END_MARKER +:+ LF; LF;
                        END_MARKER +:+ LF; "B" +:+ LF ])).
Proof. repeat split; repeat constructor. Qed.

(** C6, as the code has it: a start-marker line read while no replacement
    is open is appended to the output, and the content rows come directly
    after it; the line is left out only when it is read while a replacement
    is already open, and the content rows are inserted there too. *)
Theorem replace_content_in_readme_start_marker
    content_rows w before start_line after :
  README w = Some (before ++ start_line :: after) →
  startswith start_line START_MARKER = true →
  replace_content_in_readme content_rows w
    = (Return (),
       World (environ w)
         (Some (rewritten content_rows before
                  ++ (if repl_open (replace_lines content_rows
                                      (Patcher [] false) before)
                      then [] else [start_line])
                  ++ content_rows ++ emitted content_rows true after))
         (internet w) (sent w)).
Proof.
  intros Hf Hs.
  rewrite (replace_content_in_readme_rewrites _ _ _ Hf).
  by rewrite rewritten_start_marker.
Qed.

Lemma replace_content_in_readme_start_marker_witness :
  replace_content_in_readme ["X" +:+ LF]
      (readme_only [ "A" +:+ LF; START_MARKER +:+ LF; "old" +:+ LF;
                     START_MARKER +:+ " again" +:+ LF; END_MARKER +:+ LF ])
    = (Return (),
       readme_only [ "A" +:+ LF; START_MARKER +:+ LF; "X" +:+ LF;
                     "X" +:+ LF; LF; END_MARKER +:+ LF ]).
Proof.
  exact (replace_content_in_readme_start_marker ["X" +:+ LF]
           (readme_only [ "A" +:+ LF; START_MARKER +:+ LF; "old" +:+ LF;
                          START_MARKER +:+ " again" +:+ LF;
                          END_MARKER +:+ LF ])
           ["A" +:+ LF] (START_MARKER +:+ LF)
           [ "old" +:+ LF; START_MARKER +:+ " again" +:+ LF;
             END_MARKER +:+ LF ]
           eq_refl eq_refl).
Defined.

(** C6 fails on the first start marker of a file: the marker line is in the
    output, just before the content rows. *)
Lemma replace_content_in_readme_keeps_start_marker :
  startswith (START_MARKER +:+ LF) START_MARKER = true
  ∧ replace_line ["X" +:+ LF] (Patcher ["A" +:+ LF] false)
      (START_MARKER +:+ LF)
    = Patcher ["A" +:+ LF; START_MARKER +:+ LF; "X" +:+ LF] true
  ∧ replace_content_in_readme ["X" +:+ LF]
      (readme_only [ "A" +:+ LF; START_MARKER +:+ LF; "old" +:+ LF;
                     END_MARKER +:+ LF ])
    = (Return (),
       readme_only [ "A" +:+ LF; START_MARKER +:+ LF; "X" +:+ LF; LF;
                     END_MARKER +:+ LF ]).
Proof. repeat split. Qed.

(** C10: an end-marker line read while no replacement is open is written
    twice, with a blank line in between, and the rewritten file differs
    from the file read. *)
Theorem replace_content_in_readme_stray_end_marker
    content_rows w before end_line after :
  README w = Some (before ++ end_line :: after) →
  repl_open (replace_lines content_rows (Patcher [] false) before) = false →
  startswith end_line END_MARKER = true →
  ∃ w',
    replace_content_in_readme content_rows w = (Return (), w')
    ∧ README w'
      = Some (rewritten content_rows before ++ [end_line; LF; end_line]
                ++ emitted content_rows false after)
    ∧ README w' ≠ README w.
Proof.
  intros Hf Hb He. eexists. split; [|split].
  - by apply replace_content_in_readme_rewrites.
  - simpl. by rewrite rewritten_stray_end_marker.
  - simpl. rewrite Hf. intros [= Heq]. revert Heq.
    by apply rewritten_stray_end_marker_changes.
Qed.

Lemma replace_content_in_readme_stray_end_marker_witness :
  ∃ w',
    replace_content_in_readme ["X" +:+ LF]
        (readme_only ["A" +:+ LF; END_MARKER +:+ LF; "B" +:+ LF])
      = (Return (), w')
    ∧ README w'
      = Some [ "A" +:+ LF; END_MARKER +:+ LF; LF; END_MARKER +:+ LF;
               "B" +:+ LF ]
    ∧ README w' ≠ Some ["A" +:+ LF; END_MARKER +:+ LF; "B" +:+ LF].
Proof.
  exact (replace_content_in_readme_stray_end_marker ["X" +:+ LF]
           (readme_only ["A" +:+ LF; END_MARKER +:+ LF; "B" +:+ LF])
           ["A" +:+ LF] (END_MARKER +:+ LF) ["B" +:+ LF]
           eq_refl eq_refl eq_refl).
Defined.

(** ** The lexicographic order of strings *)

Lemma ltb_compare (s1 s2 : string) :
  String.ltb s1 s2 = true ↔ String.compare s1 s2 = Lt.
Proof. unfold String.ltb. by destruct (String.compare s1 s2). Qed.

Lemma compare_refl (s : string) : String.compare s s = Eq.
Proof.
  induction s as [|c s IH]; [done|]; simpl.
  unfold Ascii.compare. by rewrite N.compare_refl.
Qed.

Lemma compare_lt_trans (s1 s2 s3 : string) :
  String.compare s1 s2 = Lt → String.compare s2 s3 = Lt →
  String.compare s1 s3 = Lt.
Proof.
  revert s2 s3.
  induction s1 as [|c1 s1 IH]; intros [|c2 s2] [|c3 s3]; simpl; try done.
  unfold Ascii.compare.
  destruct (N.compare_spec (N_of_ascii c1) (N_of_ascii c2)) as [E12|L12|G12];
    try done;
    destruct (N.compare_spec (N_of_ascii c2) (N_of_ascii c3)) as [E23|L23|G23];
    try done; intros H12 H23.
  - rewrite <- E23, E12, N.compare_refl. eauto.
  - rewrite E12. by apply N.compare_lt_iff in L23 as ->.
  - rewrite <- E23. by apply N.compare_lt_iff in L12 as ->.
  - assert (N_of_ascii c1 < N_of_ascii c3)%N as L13 by lia.
    by apply N.compare_lt_iff in L13 as ->.
Qed.

Lemma ltb_irrefl (s : string) : String.ltb s s = false.
Proof. unfold String.ltb. by rewrite compare_refl. Qed.

Lemma ltb_trans (s1 s2 s3 : string) :
  String.ltb s1 s2 = true → String.ltb s2 s3 = true →
  String.ltb s1 s3 = true.
Proof. rewrite !ltb_compare. apply compare_lt_trans. Qed.

Lemma ltb_trichotomy (s1 s2 : string) :
  String.ltb s1 s2 = true ∨ s1 = s2 ∨ String.ltb s2 s1 = true.
Proof.
  rewrite !ltb_compare, (String.compare_antisym s2 s1).
  destruct (String.compare s1 s2) eqn:E; simpl; auto.
  right; left. by apply String.compare_eq_iff.
Qed.

Lemma ltb_asym (s1 s2 : string) :
  String.ltb s1 s2 = true → String.ltb s2 s1 = false.
Proof.
  intros H. destruct (String.ltb s2 s1) eqn:E; [|done].
  by rewrite <- (ltb_irrefl s1), <- (ltb_trans _ _ _ H E).
Qed.

(** ** The ordering of client descriptors *)

Lemma CloudClient_lt_unfold (a b : CloudClient) :
  CloudClient_lt a b = true ↔
    (release_level a = release_level b
       ∧ String.ltb (title a) (title b) = true)
    ∨ (release_level a ≠ release_level b
       ∧ String.ltb (release_level b) (release_level a) = true).
Proof.
  unfold CloudClient_lt.
  destruct (String.eqb_spec (release_level a) (release_level b)) as [E|N].
  - split; [by left | by intros [[_ H]|[N _]]].
  - split; [by right | by intros [[E _]|[_ H]]].
Qed.

Lemma CloudClient_lt_irrefl (a : CloudClient) : CloudClient_lt a a = false.
Proof.
  unfold CloudClient_lt. rewrite String.eqb_refl. apply ltb_irrefl.
Qed.

Lemma CloudClient_lt_trans (a b c : CloudClient) :
  CloudClient_lt a b = true → CloudClient_lt b c = true →
  CloudClient_lt a c = true.
Proof.
  rewrite !CloudClient_lt_unfold.
  intros [[E1 H1]|[N1 H1]] [[E2 H2]|[N2 H2]].
  - left. split; [congruence | eauto using ltb_trans].
  - right. rewrite E1. naive_solver.
  - right. rewrite <- E2. naive_solver.
  - right. pose proof (ltb_trans _ _ _ H2 H1) as H3. split; [|done].
    intros E. rewrite E, ltb_irrefl in H3. discriminate.
Qed.

Lemma CloudClient_lt_total (a b : CloudClient) :
  CloudClient_lt a b = true ∨ CloudClient_lt b a = true
  ∨ (release_level a = release_level b ∧ title a = title b).
Proof.
  rewrite !CloudClient_lt_unfold.
  destruct (decide (release_level a = release_level b)) as [E|N].
  - destruct (ltb_trichotomy (title a) (title b)) as [?|[?|?]]; naive_solver.
  - destruct (ltb_trichotomy (release_level a) (release_level b))
      as [?|[?|?]]; naive_solver.
Qed.

Lemma CloudClient_lt_asym (a b : CloudClient) :
  CloudClient_lt a b = true → CloudClient_lt b a = false.
Proof.
  intros H. destruct (CloudClient_lt b a) eqn:E; [|done].
  by rewrite <- (CloudClient_lt_irrefl a), <- (CloudClient_lt_trans _ _ _ H E).
Qed.

(** Descriptors with the same release level and title are ordered alike
    with respect to every other descriptor. *)
Lemma CloudClient_lt_same_key_l (a a' b : CloudClient) :
  release_level a = release_level a' → title a = title a' →
  CloudClient_lt a b = CloudClient_lt a' b.
Proof. unfold CloudClient_lt. by intros -> ->. Qed.

Lemma CloudClient_lt_same_key_r (a b b' : CloudClient) :
  release_level b = release_level b' → title b = title b' →
  CloudClient_lt a b = CloudClient_lt a b'.
Proof. unfold CloudClient_lt. by intros -> ->. Qed.

#[export] Instance not_after_trans : Transitive not_after.
Proof.
  unfold not_after. intros a b c Hba Hcb.
  destruct (CloudClient_lt c a) eqn:Hca; [|done].
  destruct (CloudClient_lt_total c b) as [H|[H|[E1 E2]]].
  - congruence.
  - rewrite (CloudClient_lt_trans _ _ _ H Hca) in Hba. discriminate.
  - rewrite (CloudClient_lt_same_key_l c b a E1 E2) in Hca. congruence.
Qed.

(** ** [sorted] *)

Lemma insert_sorted_perm (x : CloudClient) (l : list CloudClient) :
  insert_sorted x l ≡ₚ x :: l.
Proof.
  induction l as [|y l IH]; simpl; [done|].
  destruct (CloudClient_lt y x); [|done].
  rewrite IH. apply Permutation_swap.
Qed.

Lemma sorted_perm (l : list CloudClient) : sorted l ≡ₚ l.
Proof.
  induction l as [|x l IH]; simpl; [done|].
  by rewrite insert_sorted_perm, IH.
Qed.

Lemma insert_sorted_sorted (x : CloudClient) (l : list CloudClient) :
  StronglySorted not_after l → StronglySorted not_after (insert_sorted x l).
Proof.
  induction l as [|y l IH]; simpl; intros Hl.
  - by repeat constructor.
  - apply StronglySorted_cons in Hl as [Hy Hl].
    destruct (CloudClient_lt y x) eqn:E; apply StronglySorted_cons.
    + split; [|auto]. rewrite insert_sorted_perm.
      constructor; [|done]. by apply CloudClient_lt_asym.
    + split; [|by apply StronglySorted_cons].
      constructor; [done|].
      eapply Forall_impl; [exact Hy|]. intros z Hz.
      by transitivity y.
Qed.

Lemma sorted_sorted (l : list CloudClient) :
  StronglySorted not_after (sorted l).
Proof.
  induction l as [|x l IH]; simpl; [constructor|].
  by apply insert_sorted_sorted.
Qed.

(** In the sorted list, a descriptor stands before every descriptor it is
    less than. *)
Lemma sorted_before (l : list CloudClient) (a b : CloudClient) :
  a ∈ l → b ∈ l → CloudClient_lt a b = true →
  ∃ l1 l2 l3, sorted l = l1 ++ a :: l2 ++ b :: l3.
Proof.
  intros Ha Hb Hab.
  rewrite <- (sorted_perm l) in Ha, Hb.
  pose proof (sorted_sorted l) as Hs.
  apply list_elem_of_split in Ha as (l1 & l2 & E). rewrite E in Hb, Hs.
  exists l1. rewrite E.
  apply elem_of_app in Hb as [Hb|Hb].
  - pose proof (StronglySorted_app_1_elem_of _ _ _ b a Hs Hb) as H.
    unfold not_after in H. rewrite H in Hab; [done | by left].
  - apply elem_of_cons in Hb as [->|Hb].
    + by rewrite CloudClient_lt_irrefl in Hab.
    + apply list_elem_of_split in Hb as (l2' & l3 & ->). by exists l2', l3.
Qed.

(** The sort is stable: descriptors with the same release level and title
    keep the order they had. *)
Lemma insert_sorted_filter (P : CloudClient → Prop) `{!∀ c, Decision (P c)}
    (x : CloudClient) (l : list CloudClient) :
  (∀ y, P x → P y → CloudClient_lt y x = false) →
  filter P (insert_sorted x l) = filter P (x :: l).
Proof.
  intros HP. induction l as [|y l IH]; simpl; [done|].
  destruct (CloudClient_lt y x) eqn:E; [|done].
  rewrite filter_cons, IH, !filter_cons.
  destruct (decide (P x)) as [Hx|Hx]; [|done].
  destruct (decide (P y)) as [Hy|Hy]; [|done].
  rewrite (HP y Hx Hy) in E. discriminate.
Qed.

(** X11: [sorted] is stable: the descriptors with a given release level
    and title stand in the sorted list in the order they had in the
    argument. *)
Lemma sorted_stable (l : list CloudClient) (level name : string) :
  filter (λ c, release_level c = level ∧ title c = name) (sorted l)
    = filter (λ c, release_level c = level ∧ title c = name) l.
Proof.
  induction l as [|x l IH]; simpl; [done|].
  rewrite insert_sorted_filter.
  - by rewrite !filter_cons, IH.
  - intros y [Hx1 Hx2] [Hy1 Hy2].
    rewrite (CloudClient_lt_same_key_l y x x) by congruence.
    apply CloudClient_lt_irrefl.
Qed.

(** C2: the ordering [sorted] uses compares the pairs (release level,
    title) and is a strict total order on them: no descriptor is before
    itself, the ordering is transitive, and of two descriptors that differ
    in release level or title one is before the other.  With different
    release levels, the descriptor with the lexically greater level is
    first; with equal levels, the one with the lexically smaller title.
    [sorted] arranges its argument accordingly; a stable descriptor titled
    "Zeta" comes before a beta one titled "Alpha". *)
Theorem CloudClient_ordering :
  (∀ a, CloudClient_lt a a = false)
  ∧ (∀ a b c, CloudClient_lt a b = true → CloudClient_lt b c = true →
       CloudClient_lt a c = true)
  ∧ (∀ a b, CloudClient_lt a b = true ∨ CloudClient_lt b a = true
       ∨ (release_level a = release_level b ∧ title a = title b))
  ∧ (∀ a b, release_level a ≠ release_level b →
       (CloudClient_lt a b = true
        ↔ String.ltb (release_level b) (release_level a) = true))
  ∧ (∀ a b, release_level a = release_level b →
       (CloudClient_lt a b = true
        ↔ String.ltb (title a) (title b) = true))
  ∧ (∀ l, sorted l ≡ₚ l ∧ StronglySorted not_after (sorted l))
  ∧ (∀ l a b, a ∈ l → b ∈ l → CloudClient_lt a b = true →
       ∃ l1 l2 l3, sorted l = l1 ++ a :: l2 ++ b :: l3)
  ∧ (∀ repo_z dist_z repo_a dist_a,
       let zeta := Build_CloudClient repo_z "Zeta" "stable" dist_z in
       let alpha := Build_CloudClient repo_a "Alpha" "beta" dist_a in
       CloudClient_lt zeta alpha = true
       ∧ sorted [alpha; zeta] = [zeta; alpha]
       ∧ sorted [zeta; alpha] = [zeta; alpha]).
Proof.
  split_and!.
  - apply CloudClient_lt_irrefl.
  - apply CloudClient_lt_trans.
  - apply CloudClient_lt_total.
  - intros a b N. rewrite CloudClient_lt_unfold. tauto.
  - intros a b E. rewrite CloudClient_lt_unfold. tauto.
  - intros l. split; [apply sorted_perm | apply sorted_sorted].
  - apply sorted_before.
  - done.
Qed.

Lemma CloudClient_ordering_witness :
  CloudClient_lt sample_storage sample_bigquery = true
  ∧ ∃ l1 l2 l3,
      sorted [sample_bigquery; sample_storage]
        = l1 ++ sample_storage :: l2 ++ sample_bigquery :: l3.
Proof.
  destruct CloudClient_ordering as (_ & _ & _ & Hlevel & _ & _ & Hbefore & _).
  assert (CloudClient_lt sample_storage sample_bigquery = true) as Hlt.
  { apply Hlevel; [discriminate | reflexivity]. }
  split; [exact Hlt|].
  apply Hbefore; [ | | exact Hlt].
  - apply list_elem_of_further, list_elem_of_here.
  - apply list_elem_of_here.
Defined.

(** ** The repository filter *)

(** What [allowed_repo] computes on a summary record that has a string
    under ["full_name"] and a value under ["archived"]. *)
Lemma allowed_repo_record (d : gmap string json) (full_name : string)
    (archived : json) :
  d !! "full_name" = Some (JStr full_name) →
  d !! "archived" = Some archived →
  allowed_repo (JDict d)
    = Return (startswith full_name "googleapis/python-"
              && negb (bool_decide (full_name ∈ REPO_EXCLUSION))
              && negb (truthy archived)).
Proof.
  intros Hn Ha. unfold allowed_repo; simpl. rewrite Hn; simpl.
  destruct (startswith full_name "googleapis/python-"); simpl; [|done].
  destruct (bool_decide (full_name ∈ REPO_EXCLUSION)); simpl; [done|].
  by rewrite Ha.
Qed.

(** A record whose full name lacks the prefix, or is excluded, is refused
    whatever else it holds. *)
Lemma allowed_repo_refused (d : gmap string json) (full_name : string) :
  d !! "full_name" = Some (JStr full_name) →
  (startswith full_name "googleapis/python-" = false
   ∨ full_name ∈ REPO_EXCLUSION) →
  allowed_repo (JDict d) = Return false.
Proof.
  intros Hn H. unfold allowed_repo; simpl. rewrite Hn; simpl.
  destruct (startswith full_name "googleapis/python-"); simpl; [|done].
  destruct H as [H|H]; [done|]. by rewrite (bool_decide_eq_true_2 _ H).
Qed.

(** An allowed record has a string under ["full_name"]: the slug that
    [get_clients_batch_from_response_json] hands to [client_for_repo]. *)
Lemma allowed_repo_full_name (r : json) :
  allowed_repo r = Return true →
  ∃ full_name, getitem r "full_name" = Return (JStr full_name).
Proof.
  unfold allowed_repo.
  destruct (getitem r "full_name") as [v|e| |] eqn:E; simpl; [|done..].
  destruct v; simpl; try done. eauto.
Qed.

(** C3: [allowed_repo] is a function of the summary record alone; on a
    record with a full name and an archived mark it returns true exactly
    when the full name starts with "googleapis/python-", is not one of the
    seven slugs of [REPO_EXCLUSION], and the record is not marked archived.
    It returns false for "googleapis/java-storage", for
    "googleapis/python-api-core", and for every archived repository. *)
Theorem allowed_repo_spec :
  (∀ (d : gmap string json) (full_name : string) (archived : bool),
     d !! "full_name" = Some (JStr full_name) →
     d !! "archived" = Some (JBool archived) →
     ∃ b : bool,
       allowed_repo (JDict d) = Return b
       ∧ (b = true
          ↔ startswith full_name "googleapis/python-" = true
            ∧ (full_name ∉ REPO_EXCLUSION)
            ∧ archived = false))
  ∧ length REPO_EXCLUSION = 7
  ∧ (∀ d : gmap string json,
       d !! "full_name" = Some (JStr "googleapis/java-storage") →
       allowed_repo (JDict d) = Return false)
  ∧ (∀ d : gmap string json,
       d !! "full_name" = Some (JStr "googleapis/python-api-core") →
       allowed_repo (JDict d) = Return false)
  ∧ (∀ (d : gmap string json) (full_name : string),
       d !! "full_name" = Some (JStr full_name) →
       d !! "archived" = Some (JBool true) →
       allowed_repo (JDict d) = Return false).
Proof.
  split_and!.
  - intros d full_name archived Hn Ha. eexists. split.
    + exact (allowed_repo_record d full_name (JBool archived) Hn Ha).
    + simpl. rewrite !andb_true_iff, !negb_true_iff, bool_decide_eq_false.
      tauto.
  - done.
  - intros d Hn. apply (allowed_repo_refused d _ Hn). by left.
  - intros d Hn. apply (allowed_repo_refused d _ Hn). right.
    apply (bool_decide_unpack _). by vm_compute.
  - intros d full_name Hn Ha.
    rewrite (allowed_repo_record d full_name _ Hn Ha); simpl.
    by rewrite andb_false_r.
Qed.

Lemma allowed_repo_spec_witness :
  allowed_repo
    (JDict {[ "full_name" := JStr "googleapis/python-storage";
              "archived" := JBool false ]}) = Return true
  ∧ allowed_repo
      (JDict {[ "full_name" := JStr "googleapis/python-storage";
                "archived" := JBool true ]}) = Return false
  ∧ allowed_repo
      (JDict {[ "full_name" := JStr "googleapis/java-storage";
                "archived" := JBool false ]}) = Return false.
Proof.
  destruct allowed_repo_spec as (Hiff & _ & Hjava & _ & Harchived).
  split_and!.
  - destruct (Hiff {[ "full_name" := JStr "googleapis/python-storage";
                      "archived" := JBool false ]}
                   "googleapis/python-storage" false)
      as (b & -> & Hb); [reflexivity..|].
    f_equal. apply Hb. split_and!; [reflexivity| |reflexivity].
    apply (bool_decide_unpack _). vm_compute. exact I.
  - apply (Harchived _ "googleapis/python-storage"); reflexivity.
  - apply Hjava. reflexivity.
Defined.

(** ** The table generator *)

(** The loop of [generate_table_contents] appends the rows and the badges
    of the clients, in their order, to what the two lists held. *)
Lemma foldl_add_client (clients : list CloudClient)
    (content_rows pypi_links : list string) :
  foldl add_client (content_rows, pypi_links) clients
    = (content_rows ++ flat_map content_row clients,
       pypi_links ++ (pypi_badge <$> clients)).
Proof.
  revert content_rows pypi_links.
  induction clients as [|c clients IH]; intros content_rows pypi_links.
  - simpl. by rewrite !(right_id_L [] (++)).
  - cbn [foldl].
    change (add_client (content_rows, pypi_links) c)
      with (content_rows ++ content_row c, pypi_links ++ [pypi_badge c]).
    rewrite IH. cbn [flat_map fmap list_fmap].
    by rewrite <- !(assoc_L (++)).
Qed.

Lemma generate_table_contents_unfold (clients : list CloudClient) :
  generate_table_contents clients
    = table_header ++ flat_map content_row clients
        ++ LF :: (pypi_badge <$> clients).
Proof.
  unfold generate_table_contents. rewrite foldl_add_client.
  by rewrite <- (assoc_L (++)).
Qed.

Lemma flat_map_content_row_length (clients : list CloudClient) :
  length (flat_map content_row clients) = 2 * length clients.
Proof.
  induction clients as [|c clients IH]; [done|].
  cbn [flat_map]. rewrite length_app, IH. simpl. lia.
Qed.

Lemma flat_map_content_row_lookup (clients : list CloudClient) (i : nat)
    (c : CloudClient) (k : nat) :
  clients !! i = Some c → k < 2 →
  flat_map content_row clients !! (2 * i + k) = content_row c !! k.
Proof.
  revert i. induction clients as [|c' clients IH]; intros i Hi Hk; [done|].
  cbn [flat_map]. destruct i as [|i].
  - injection Hi as ->. rewrite lookup_app_l; [done|]. simpl. lia.
  - rewrite lookup_app_r by (simpl; lia).
    replace (2 * S i + k - length (content_row c')) with (2 * i + k)
      by (simpl; lia).
    by apply IH.
Qed.

(** C8: [generate_table_contents] is a function of the list of descriptors
    alone.  Its result is the fixed header of seven strings, then the table
    row of each descriptor in the order of the list (two strings: the
    linked title, and the release level with the version badge reference),
    then a blank line and the badge definition of each descriptor in the
    same order; the badge is named after the distribution name and points
    to its page on pypi.org. *)
Theorem generate_table_contents_spec (clients : list CloudClient) :
  generate_table_contents clients
    = table_header ++ flat_map content_row clients
        ++ LF :: (pypi_badge <$> clients)
  ∧ length (generate_table_contents clients)
    = 7 + 2 * length clients + 1 + length clients
  ∧ (∀ k, k < 7 →
       generate_table_contents clients !! k = table_header !! k)
  ∧ generate_table_contents clients !! (7 + 2 * length clients) = Some LF
  ∧ (∀ i c, clients !! i = Some c →
       generate_table_contents clients !! (7 + 2 * i)
         = Some ("   * - `" +:+ title c +:+ " <https://github.com/"
                   +:+ repo c +:+ ">`_" +:+ LF)
       ∧ generate_table_contents clients !! (7 + 2 * i + 1)
         = Some ("     - |" +:+ release_level c +:+ "|" +:+ LF
                   +:+ "     - |PyPI-" +:+ distribution_name c +:+ "|" +:+ LF)
       ∧ generate_table_contents clients !! (7 + 2 * length clients + 1 + i)
         = Some (".. |PyPI-" +:+ distribution_name c
                   +:+ "| image:: https://img.shields.io/pypi/v/"
                   +:+ distribution_name c +:+ ".svg" +:+ LF
                   +:+ "     :target: https://pypi.org/project/"
                   +:+ distribution_name c +:+ LF)).
Proof.
  pose proof (flat_map_content_row_length clients) as Hlen.
  assert (length table_header = 7) as Hhead by done.
  rewrite generate_table_contents_unfold. split_and!.
  - done.
  - rewrite !length_app, Hlen, Hhead. simpl. rewrite length_fmap. lia.
  - intros k Hk. by rewrite lookup_app_l by lia.
  - rewrite lookup_app_r by lia. rewrite lookup_app_r by lia.
    by replace (7 + 2 * length clients - length table_header
                  - length (flat_map content_row clients)) with 0 by lia.
  - intros i c Hi.
    pose proof (lookup_lt_Some _ _ _ Hi) as Hlt. split_and!.
    + rewrite lookup_app_r by lia. rewrite lookup_app_l by lia.
      replace (7 + 2 * i - length table_header) with (2 * i + 0) by lia.
      by rewrite (flat_map_content_row_lookup _ _ c) by (done || lia).
    + rewrite lookup_app_r by lia. rewrite lookup_app_l by lia.
      replace (7 + 2 * i + 1 - length table_header) with (2 * i + 1) by lia.
      by rewrite (flat_map_content_row_lookup _ _ c) by (done || lia).
    + rewrite lookup_app_r by lia. rewrite lookup_app_r by lia.
      replace (7 + 2 * length clients + 1 + i - length table_header
                 - length (flat_map content_row clients)) with (S i) by lia.
      simpl. by rewrite list_lookup_fmap, Hi.
Qed.

Lemma generate_table_contents_spec_witness :
  generate_table_contents
      [ Build_CloudClient "googleapis/python-z" "Zeta" "stable" "google-z";
        Build_CloudClient "googleapis/python-a" "Alpha" "beta" "google-a" ]
    !! (7 + 2 * 1)
    = Some ("   * - `Alpha <https://github.com/googleapis/python-a>`_" +:+ LF)
  ∧ generate_table_contents
      [ Build_CloudClient "googleapis/python-z" "Zeta" "stable" "google-z";
        Build_CloudClient "googleapis/python-a" "Alpha" "beta" "google-a" ]
    !! (7 + 2 * 2 + 1 + 1)
    = Some (".. |PyPI-google-a| image:: "
              +:+ "https://img.shields.io/pypi/v/google-a.svg" +:+ LF
              +:+ "     :target: https://pypi.org/project/google-a" +:+ LF).
Proof.
  destruct (generate_table_contents_spec
              [ Build_CloudClient "googleapis/python-z" "Zeta" "stable"
                  "google-z";
                Build_CloudClient "googleapis/python-a" "Alpha" "beta"
                  "google-a" ])
    as (_ & _ & _ & _ & H).
  destruct (H 1 _ eq_refl) as (H1 & _ & H3).
  split; [exact H1 | exact H3].
Defined.

(** ** [str.replace] and the title of a descriptor *)

Lemma replace_from_skip (old new p s : string) :
  replace_from old new (String.length p) (p +:+ s) = replace_from old new 0 s.
Proof. induction p as [|c p IH]; [by destruct s | exact IH]. Qed.

Lemma prefix_refl_append (p s : string) : String.prefix p (p +:+ s) = true.
Proof. apply prefix_append. by exists s. Qed.

(** The three equations of [replace] for a pattern that is not empty: an
    occurrence at the head is replaced and the scan goes on after it; any
    other character is kept; the empty string is left as it is. *)
Lemma replace_occurrence (old new s : string) :
  old ≠ "" → replace (old +:+ s) old new = new +:+ replace s old new.
Proof.
  destruct old as [|c old]; [done|]; intros _.
  unfold replace. change (String c old +:+ s) with (String c (old +:+ s)).
  cbn [replace_from].
  change (String c (old +:+ s)) with (String c old +:+ s).
  rewrite prefix_refl_append.
  cbn [String.length]. rewrite Nat.sub_1_r. cbn [Nat.pred].
  by rewrite replace_from_skip.
Qed.

Lemma replace_other (old new : string) (c : ascii) (s : string) :
  old ≠ "" → String.prefix old (String c s) = false →
  replace (String c s) old new = String c (replace s old new).
Proof.
  destruct old as [|a old]; [done|]; intros _ H.
  unfold replace. cbn [replace_from]. by rewrite H.
Qed.

Lemma replace_nil (old new : string) : old ≠ "" → replace "" old new = "".
Proof. by destruct old. Qed.

(** What [CloudClient.__init__] builds from a metadata document that has a
    string under each of the four keys. *)
Lemma CloudClient_init_document (d : gmap string json)
    (v_repo name_pretty v_level v_dist : string) :
  d !! "repo" = Some (JStr v_repo) →
  d !! "name_pretty" = Some (JStr name_pretty) →
  d !! "release_level" = Some (JStr v_level) →
  d !! "distribution_name" = Some (JStr v_dist) →
  CloudClient_init (JDict d)
    = Return (Build_CloudClient v_repo
                (replace (replace name_pretty "Google " "") "Cloud " "")
                v_level v_dist).
Proof.
  intros H1 H2 H3 H4. unfold CloudClient_init; simpl.
  rewrite H1; simpl. rewrite H2; simpl. rewrite H3; simpl. by rewrite H4.
Qed.

(** C9: the title of a descriptor is the pretty name of the metadata
    document in which every occurrence of "Google " and then every
    occurrence of "Cloud " has been removed; the title built from
    "Google Cloud Storage" is "Storage". *)
Theorem CloudClient_title :
  (∀ (d : gmap string json) (v_repo name_pretty v_level v_dist : string),
     d !! "repo" = Some (JStr v_repo) →
     d !! "name_pretty" = Some (JStr name_pretty) →
     d !! "release_level" = Some (JStr v_level) →
     d !! "distribution_name" = Some (JStr v_dist) →
     ∃ client,
       CloudClient_init (JDict d) = Return client
       ∧ title client
         = replace (replace name_pretty "Google " "") "Cloud " "")
  ∧ (∀ old s, old = "Google " ∨ old = "Cloud " →
       replace (old +:+ s) old "" = replace s old ""
       ∧ replace "" old "" = ""
       ∧ ∀ c, String.prefix old (String c s) = false →
           replace (String c s) old "" = String c (replace s old ""))
  ∧ replace (replace "Google Cloud Storage" "Google " "") "Cloud " ""
    = "Storage"
  ∧ (∀ (d : gmap string json) (v_repo v_level v_dist : string),
       d !! "repo" = Some (JStr v_repo) →
       d !! "name_pretty" = Some (JStr "Google Cloud Storage") →
       d !! "release_level" = Some (JStr v_level) →
       d !! "distribution_name" = Some (JStr v_dist) →
       CloudClient_init (JDict d)
         = Return (Build_CloudClient v_repo "Storage" v_level v_dist)).
Proof.
  split_and!.
  - intros d v_repo name_pretty v_level v_dist H1 H2 H3 H4.
    eexists. split; [by apply CloudClient_init_document|done].
  - intros old s Hold.
    assert (old ≠ "") as Hne by (by destruct Hold as [-> | ->]).
    split_and!.
    + by rewrite replace_occurrence.
    + by apply replace_nil.
    + intros c Hc. by apply replace_other.
  - done.
  - intros d v_repo v_level v_dist H1 H2 H3 H4.
    by rewrite (CloudClient_init_document d _ _ _ _ H1 H2 H3 H4).
Qed.

Lemma CloudClient_title_witness :
  CloudClient_init
    (JDict {[ "repo" := JStr "googleapis/python-storage";
              "name_pretty" := JStr "Google Cloud Storage";
              "release_level" := JStr "stable";
              "distribution_name" := JStr "google-cloud-storage" ]})
  = Return (Build_CloudClient "googleapis/python-storage" "Storage" "stable"
              "google-cloud-storage").
Proof.
  destruct CloudClient_title as (_ & _ & _ & H).
  apply H; reflexivity.
Defined.

(** ** The metadata fetcher and the repository lister *)

(** One step of a computation that starts with a [lift]. *)
Ltac bind_lift := unfold mbind at 1, M_bind at 1, lift at 1.

Lemma M_bind_return {A B} (m : M A) (k : A → M B) (w w' : world) (a : A) :
  m w = (Return a, w') → (m ≫= k) w = k a w'.
Proof. intros H. unfold mbind, M_bind. by rewrite H. Qed.

Lemma after_requests_nil (w : world) : after_requests w [] = w.
Proof. destruct w. unfold after_requests; simpl. by rewrite app_nil_r. Qed.

Lemma after_requests_app (w : world) (reqs reqs' : list request) :
  after_requests (after_requests w reqs) reqs'
    = after_requests w (reqs ++ reqs').
Proof. unfold after_requests; simpl. by rewrite (assoc_L (++)). Qed.

Lemma requests_get_answers (w : world) (u : string) (h : gmap string string)
    (resp : response) :
  answers (internet w) (Request u h) resp →
  requests_get u h w = (Return resp, after_requests w [Request u h]).
Proof. intros H. unfold requests_get. by rewrite H. Qed.

(** [client_for_repo] returns what the servers hold for the repository,
    [None] for a miss, and sends one request. *)
Lemma client_for_repo_fetched (w : world) (repo_slug : string)
    (client : option CloudClient) :
  fetched (internet w) repo_slug client →
  client_for_repo repo_slug w
    = (Return client, after_requests w [metadata_request repo_slug]).
Proof.
  intros [slug resp Hr Hs | slug resp doc c Hr Hs Hb Hc];
    unfold client_for_repo;
    rewrite (M_bind_return _ _ _ _ _ (requests_get_answers _ _ _ _ Hr)).
  - apply Z.eqb_neq in Hs. by rewrite Hs.
  - apply Z.eqb_eq in Hs. rewrite Hs; simpl.
    unfold mbind, M_bind, lift, response_json. rewrite Hb, Hc. done.
Qed.

Lemma clients_batch_spec (w : world) (repos : list json)
    (clients : list (option CloudClient)) (reqs : list request) :
  batch_of (internet w) repos clients reqs →
  clients_batch repos w = (Return clients, after_requests w reqs).
Proof.
  remember (internet w) as net eqn:Hnet. intros H. revert w Hnet.
  induction H as [|r repos clients reqs Ha _ IH
                  |r repo_slug repos client clients reqs Ha Hn Hf _ IH];
    intros w ->.
  - by rewrite after_requests_nil.
  - cbn [clients_batch]. bind_lift.
    rewrite Ha. by apply IH.
  - cbn [clients_batch]. bind_lift.
    rewrite Ha.
    bind_lift. rewrite Hn.
    bind_lift; unfold str_method.
    rewrite (M_bind_return _ _ _ _ _ (client_for_repo_fetched _ _ _ Hf)).
    rewrite (M_bind_return _ _ _ _ _
               (IH (after_requests w [metadata_request repo_slug]) eq_refl)).
    unfold mret, M_ret. by rewrite after_requests_app.
Qed.

Lemma all_clients_loop_stop fuel token clients r w :
  links r !! "next" = None →
  all_clients_loop fuel token clients false (Some r) w = (Return clients, w).
Proof.
  intros H.
  destruct fuel; cbn [all_clients_loop];
    bind_lift; by rewrite H.
Qed.

Lemma all_clients_loop_step fuel token clients first_request resp0 w u
    resp page :
  next_page first_request resp0 u →
  answers (internet w) (page_request token u) resp →
  body resp = Some page →
  all_clients_loop (S fuel) token clients first_request resp0 w
    = (n ← lift (len page);
       if (n =? 0)%nat then mret clients
       else
         batch ← get_clients_batch_from_response_json page;
         all_clients_loop fuel token (clients ++ batch) false (Some resp))
        (after_requests w [page_request token u]).
Proof.
  intros Hnext Hr Hb. cbn [all_clients_loop].
  assert (requests_get u {[ "Authorization" := "token " +:+ token ]} w
          = (Return resp, after_requests w [page_request token u])) as Hget
    by (by apply requests_get_answers).
  destruct Hnext as [[-> ->] | [-> (r0 & -> & Hl)]].
  - bind_lift.
    bind_lift.
    rewrite (M_bind_return _ _ _ _ _ Hget).
    bind_lift; unfold response_json.
    by rewrite Hb.
  - bind_lift. rewrite Hl; simpl.
    rewrite Hl. bind_lift.
    rewrite (M_bind_return _ _ _ _ _ Hget).
    bind_lift; unfold response_json.
    by rewrite Hb.
Qed.

(** The loop of [all_clients] collects what the pages of the listing give,
    as soon as its bound allows one iteration per page. *)
Lemma all_clients_loop_spec net token u collected reqs k :
  pages_from net token u collected reqs k →
  ∀ fuel w clients first_request resp0,
    internet w = net → k ≤ fuel → next_page first_request resp0 u →
    all_clients_loop fuel token clients first_request resp0 w
      = (Return (clients ++ collected), after_requests w reqs).
Proof.
  induction 1 as [u resp page Hr Hb Hl
                 |u resp page n repos batch reqs Hr Hb Hl Hi Hbatch Hnone
                 |u resp page n repos batch reqs u' collected' reqs' k
                    Hr Hb Hl Hi Hbatch Hsome _ IH];
    intros fuel w clients first_request resp0 <- Hfuel Hnext;
    (destruct fuel as [|fuel]; [lia|]);
    rewrite (all_clients_loop_step _ _ _ _ _ _ _ _ _ Hnext Hr Hb);
    bind_lift; rewrite Hl;
    cbn [Nat.eqb].
  - unfold mret, M_ret. by rewrite (right_id_L [] (++)).
  - unfold get_clients_batch_from_response_json.
    unfold mbind at 1, M_bind at 1. bind_lift.
    rewrite Hi.
    rewrite (clients_batch_spec (after_requests w [page_request token u])
               _ _ _ Hbatch).
    cbv beta iota. rewrite all_clients_loop_stop by done.
    by rewrite after_requests_app.
  - unfold get_clients_batch_from_response_json.
    unfold mbind at 1, M_bind at 1. bind_lift.
    rewrite Hi.
    rewrite (clients_batch_spec (after_requests w [page_request token u])
               _ _ _ Hbatch).
    cbv beta iota.
    rewrite (IH fuel
               (after_requests (after_requests w [page_request token u]) reqs)
               (clients ++ batch) false (Some resp) eq_refl);
      [|lia|right; eauto].
    rewrite !after_requests_app. by rewrite <- !(assoc_L (++)).
Qed.

Lemma all_clients_spec fuel w token collected reqs k :
  environ w !! "GITHUB_TOKEN" = Some token →
  pages_from (internet w) token REPO_LIST_JSON_page_1 collected reqs k →
  k ≤ fuel →
  all_clients fuel w = (Return (omap id collected), after_requests w reqs).
Proof.
  intros Ht Hp Hk. unfold all_clients.
  unfold mbind at 1, M_bind at 1, environ_getitem. rewrite Ht.
  rewrite (M_bind_return _ _ w (after_requests w reqs) collected); [done|].
  apply (all_clients_loop_spec _ _ _ _ _ _ Hp fuel w [] true None eq_refl Hk).
  by left.
Qed.

Lemma updateapilist_spec fuel w token collected reqs k f :
  environ w !! "GITHUB_TOKEN" = Some token →
  pages_from (internet w) token REPO_LIST_JSON_page_1 collected reqs k →
  k ≤ fuel →
  README w = Some f →
  updateapilist fuel w
    = (Return (),
       World (environ w)
         (Some (rewritten
                  (generate_table_contents (sorted (omap id collected))) f))
         (internet w) (sent w ++ reqs)).
Proof.
  intros Ht Hp Hk Hf. unfold updateapilist. rewrite Ht; simpl.
  rewrite (M_bind_return _ _ _ _ _ (all_clients_spec _ _ _ _ _ _ Ht Hp Hk)).
  by rewrite (replace_content_in_readme_rewrites _ _ f).
Qed.

(** C4: when the metadata request of a repository is answered with a status
    other than 200, [client_for_repo] returns [None] and raises nothing;
    [all_clients] returns the descriptors fetched for the listed
    repositories without the [None]s, and the script goes on to rewrite
    [README.rst] from them. *)
Theorem skip_on_miss :
  (∀ w repo_slug resp,
     internet w (sent w) (metadata_request repo_slug) = inr resp →
     status_code resp ≠ codes_ok →
     client_for_repo repo_slug w
       = (Return None, after_requests w [metadata_request repo_slug]))
  ∧ (∀ fuel w token collected reqs k,
       environ w !! "GITHUB_TOKEN" = Some token →
       pages_from (internet w) token REPO_LIST_JSON_page_1 collected reqs k →
       k ≤ fuel →
       all_clients fuel w
         = (Return (omap id collected), after_requests w reqs)
       ∧ ∀ f, README w = Some f →
           updateapilist fuel w
             = (Return (),
                World (environ w)
                  (Some (rewritten
                           (generate_table_contents
                              (sorted (omap id collected))) f))
                  (internet w) (sent w ++ reqs))).
Proof.
  split.
  - intros w repo_slug resp Hr Hs. unfold client_for_repo.
    unfold mbind at 1, M_bind at 1, requests_get.
    change (Request (REPO_METADATA_URL_FORMAT repo_slug) ∅)
      with (metadata_request repo_slug).
    rewrite Hr. apply Z.eqb_neq in Hs. by rewrite Hs.
  - intros fuel w token collected reqs k Ht Hp Hk. split.
    + by apply (all_clients_spec _ _ token _ _ k).
    + intros f Hf. by apply (updateapilist_spec _ _ token _ _ k).
Qed.

(** The listing of [sample_world]: the repository whose metadata is missing
    is fetched as [None]. *)
Lemma sample_pages :
  pages_from sample_internet "secret" REPO_LIST_JSON_page_1
    [Some sample_bigquery; None; Some sample_storage]
    [ page_request "secret" REPO_LIST_JSON_page_1;
      metadata_request "googleapis/python-bigquery";
      metadata_request "googleapis/python-missing";
      page_request "secret" sample_page_2;
      metadata_request "googleapis/python-storage" ]
    2.
Proof.
  eapply (pages_next _ _ _ _ _ 2 _ [Some sample_bigquery; None]
            [ metadata_request "googleapis/python-bigquery";
              metadata_request "googleapis/python-missing" ]
            sample_page_2 [Some sample_storage]
            [ page_request "secret" sample_page_2;
              metadata_request "googleapis/python-storage" ] 1).
  - intros h. reflexivity.
  - reflexivity.
  - reflexivity.
  - reflexivity.
  - eapply batch_fetch; [reflexivity | reflexivity | |].
    { eapply fetched_hit; [intros h; reflexivity | reflexivity..]. }
    eapply batch_fetch; [reflexivity | reflexivity | |].
    { eapply fetched_miss; [intros h; reflexivity | done]. }
    eapply batch_skip; [reflexivity | constructor].
  - reflexivity.
  - eapply (pages_last _ _ _ _ _ 1).
    + intros h. reflexivity.
    + reflexivity.
    + reflexivity.
    + reflexivity.
    + eapply batch_skip; [reflexivity|].
      eapply batch_fetch; [reflexivity | reflexivity | | constructor].
      eapply fetched_hit; [intros h; reflexivity | reflexivity..].
    + reflexivity.
Qed.

Lemma skip_on_miss_witness :
  client_for_repo "googleapis/python-missing" sample_world
    = (Return None,
       after_requests sample_world
         [metadata_request "googleapis/python-missing"])
  ∧ all_clients 2 sample_world
    = (Return [sample_bigquery; sample_storage],
       after_requests sample_world
         [ page_request "secret" REPO_LIST_JSON_page_1;
           metadata_request "googleapis/python-bigquery";
           metadata_request "googleapis/python-missing";
           page_request "secret" sample_page_2;
           metadata_request "googleapis/python-storage" ]).
Proof.
  destruct skip_on_miss as [Hmiss Hall]. split.
  - apply (Hmiss sample_world "googleapis/python-missing"
             (Response 404 None ∅)); [reflexivity | done].
  - apply (Hall 2 sample_world "secret" _ _ 2 eq_refl sample_pages).
    lia.
Defined.

(** ** The token *)

(** C7: when the environment has no [GITHUB_TOKEN], the script ends with
    [MissingGithubToken] in the world it started in: no request has been
    sent and [README.rst] has not been rewritten. *)
Theorem missing_token (fuel : nat) (w : world) :
  environ w !! "GITHUB_TOKEN" = None →
  updateapilist fuel w
    = (Raise (MissingGithubToken "Please include a GITHUB_TOKEN env var."), w)
  ∧ sent (snd (updateapilist fuel w)) = sent w
  ∧ README (snd (updateapilist fuel w)) = README w.
Proof.
  intros H. unfold updateapilist. by rewrite H.
Qed.

Lemma missing_token_witness :
  updateapilist 5
      (World ∅ (README sample_world) sample_internet [])
    = (Raise (MissingGithubToken "Please include a GITHUB_TOKEN env var."),
       World ∅ (README sample_world) sample_internet []).
Proof.
  apply (missing_token 5 (World ∅ (README sample_world) sample_internet [])).
  reflexivity.
Defined.

(** * Further properties *)

(** ** The document patcher: regions, repeated runs, unclosed markers *)

Lemma repl_open_replace_lines content_rows n b f :
  repl_open (replace_lines content_rows (Patcher n b) f)
    = repl_open (replace_lines content_rows (Patcher [] b) f).
Proof. by rewrite replace_lines_emitted. Qed.

Lemma repl_open_app content_rows b f g :
  repl_open (replace_lines content_rows (Patcher [] b) (f ++ g))
    = repl_open
        (replace_lines content_rows
           (Patcher [] (repl_open (replace_lines content_rows
                                     (Patcher [] b) f))) g).
Proof.
  rewrite replace_lines_app.
  destruct (replace_lines content_rows (Patcher [] b) f) as [n b'].
  apply repl_open_replace_lines.
Qed.

Lemma repl_open_cons content_rows b line f :
  repl_open (replace_lines content_rows (Patcher [] b) (line :: f))
    = repl_open
        (replace_lines content_rows
           (Patcher [] (repl_open (replace_line content_rows
                                     (Patcher [] b) line))) f).
Proof. apply (repl_open_app content_rows b [line] f). Qed.

(** A well-formed region is replaced, and the loop leaves it with no
    replacement open. *)
Lemma emitted_region content_rows r :
  region_well_formed r →
  emitted content_rows false (region_lines r) = region_replaced content_rows r
  ∧ repl_open (replace_lines content_rows (Patcher [] false) (region_lines r))
    = false.
Proof.
  intros (Hs & Ho & He & Ha). split.
  - apply (rewritten_between_markers content_rows [] (region_start r)
             (region_old r) (region_end r) (region_after r)); auto.
  - unfold region_lines. cbn [app].
    rewrite repl_open_cons, (replace_line_start _ [] false) by done.
    cbn [repl_open]. rewrite repl_open_app.
    destruct (emitted_plain content_rows true (region_old r) Ho) as [_ ->].
    rewrite repl_open_cons, (replace_line_end _ [] true) by done.
    cbn [repl_open]. by apply emitted_plain.
Qed.

Lemma emitted_regions content_rows regions :
  Forall region_well_formed regions →
  emitted content_rows false (concat (region_lines <$> regions))
    = concat (region_replaced content_rows <$> regions)
  ∧ repl_open (replace_lines content_rows (Patcher [] false)
                 (concat (region_lines <$> regions))) = false.
Proof.
  induction 1 as [|r regions Hr _ [IH1 IH2]]; [done|].
  cbn [fmap list_fmap concat].
  destruct (emitted_region content_rows r Hr) as [E1 E2].
  rewrite emitted_app, repl_open_app, E1, E2. by rewrite IH1, IH2.
Qed.

Lemma rewritten_document content_rows before regions :
  Forall plain before → Forall region_well_formed regions →
  rewritten content_rows (before ++ concat (region_lines <$> regions))
    = before ++ concat (region_replaced content_rows <$> regions).
Proof.
  intros Hb Hr.
  change (rewritten content_rows) with (emitted content_rows false).
  destruct (emitted_plain content_rows false before Hb) as [E1 E2].
  rewrite emitted_app, E1, E2.
  by destruct (emitted_regions content_rows regions Hr) as [-> _].
Qed.

Lemma region_with_lines content_rows r :
  region_lines (region_with content_rows r) = region_replaced content_rows r.
Proof.
  unfold region_lines, region_replaced, region_with; simpl.
  by rewrite <- (assoc_L (++)).
Qed.

Lemma region_with_replaced content_rows content_rows' r :
  region_replaced content_rows' (region_with content_rows r)
    = region_replaced content_rows' r.
Proof. done. Qed.

Lemma region_with_well_formed content_rows r :
  Forall plain content_rows → region_well_formed r →
  region_well_formed (region_with content_rows r).
Proof.
  intros Hc (Hs & Ho & He & Ha). split_and!; simpl; try done.
  apply Forall_app. split; [done|]. by repeat constructor.
Qed.

Lemma region_with_fmap content_rows content_rows' (regions : list region) :
  region_replaced content_rows' <$> regions
    = region_replaced content_rows' <$> (region_with content_rows <$> regions)
  ∧ region_replaced content_rows <$> regions
    = region_lines <$> (region_with content_rows <$> regions).
Proof.
  induction regions as [|r regions [IH1 IH2]]; [done|].
  cbn [fmap list_fmap].
  split; f_equal; auto using region_with_lines, region_with_replaced.
Qed.

(** X1: every managed region of a document is replaced: in a file made of lines
    without markers followed by any number of well-formed regions, the
    lines between each pair of markers become the content rows and a blank
    line, and all the other lines stay. *)
Theorem rewritten_every_region content_rows before regions :
  Forall plain before → Forall region_well_formed regions →
  rewritten content_rows (before ++ concat (region_lines <$> regions))
    = before ++ concat (region_replaced content_rows <$> regions).
Proof. apply rewritten_document. Qed.

Lemma rewritten_every_region_witness :
  rewritten ["X" +:+ LF]
      ([ "A" +:+ LF ] ++ concat (region_lines <$>
         [ Region (START_MARKER +:+ LF) ["old" +:+ LF] (END_MARKER +:+ LF)
             ["B" +:+ LF];
           Region (START_MARKER +:+ " 2" +:+ LF) [] (END_MARKER +:+ LF) [] ]))
    = [ "A" +:+ LF; START_MARKER +:+ LF; "X" +:+ LF; LF; END_MARKER +:+ LF;
        "B" +:+ LF; START_MARKER +:+ " 2" +:+ LF; "X" +:+ LF; LF;
        END_MARKER +:+ LF ].
Proof.
  apply (rewritten_every_region ["X" +:+ LF] ["A" +:+ LF]
           [ Region (START_MARKER +:+ LF) ["old" +:+ LF] (END_MARKER +:+ LF)
               ["B" +:+ LF];
             Region (START_MARKER +:+ " 2" +:+ LF) [] (END_MARKER +:+ LF) [] ]).
  - by repeat constructor.
  - repeat constructor.
Defined.

(** *** A second run *)

Lemma append_assoc (s1 s2 s3 : string) :
  (s1 +:+ s2) +:+ s3 = s1 +:+ s2 +:+ s3.
Proof.
  induction s1 as [|c s1 IH]; [done|].
  change (String c ((s1 +:+ s2) +:+ s3) = String c (s1 +:+ s2 +:+ s3)).
  by rewrite IH.
Qed.

Lemma text_of_app (ws ws' : list string) :
  text_of (ws ++ ws') = text_of ws +:+ text_of ws'.
Proof.
  induction ws as [|w ws IH]; [done|].
  cbn [app text_of foldr]. fold (text_of (ws ++ ws')) (text_of ws).
  by rewrite IH, append_assoc.
Qed.

Lemma lines_of_nonempty (c : ascii) (t : string) :
  ∃ line rest, lines_of (String c t) = line :: rest.
Proof.
  cbn [lines_of]. destruct (Ascii.eqb c "010"); [eauto|].
  destruct (lines_of t); eauto.
Qed.

(** After whole lines, the rest of a text is split on its own. *)
Lemma lines_of_whole_app (t s : string) :
  whole_lines t = true → lines_of (t +:+ s) = lines_of t ++ lines_of s.
Proof.
  induction t as [|c t IH]; [done|]. intros H.
  change (String c t +:+ s) with (String c (t +:+ s)).
  destruct t as [|c' t].
  - cbn [whole_lines] in H. cbn [lines_of]. by rewrite H.
  - assert (whole_lines (String c' t) = true) as H'.
    { cbn [whole_lines] in H. by apply andb_true_iff in H as [_ H]. }
    cbn [lines_of] in *. specialize (IH H').
    destruct (Ascii.eqb c "010"); [by rewrite IH|].
    rewrite IH.
    destruct (lines_of_nonempty c' t) as (line & rest & E).
    cbn [lines_of] in E. by rewrite E.
Qed.

Lemma is_line_lines_of (l : string) :
  is_line l = true → whole_lines l = true ∧ lines_of l = [l].
Proof.
  induction l as [|c l IH]; [done|]. destruct l as [|c' l].
  - cbn. by intros ->.
  - intros H. cbn [is_line] in H.
    apply andb_true_iff in H as [H H3]. apply andb_true_iff in H as [H1 H2].
    destruct (IH H3) as [IH1 IH2]. split.
    + cbn [whole_lines] in *. by rewrite H2, IH1.
    + cbn [lines_of] in *. apply negb_true_iff in H1. by rewrite H1, IH2.
Qed.

Lemma reread_app_whole (ws written : list string) :
  whole_lines (text_of ws) = true →
  reread (ws ++ written) = reread ws ++ reread written.
Proof.
  intros H. unfold reread. rewrite text_of_app. by apply lines_of_whole_app.
Qed.

Lemma reread_app_lines (ls written : list string) :
  Forall (λ line, is_line line = true) ls →
  reread (ls ++ written) = ls ++ reread written.
Proof.
  induction 1 as [|l ls Hl _ IH]; [done|].
  destruct (is_line_lines_of l Hl) as [H1 H2].
  change ((l :: ls) ++ written) with ([l] ++ (ls ++ written)).
  rewrite reread_app_whole.
  - rewrite IH. unfold reread at 1. cbn. fold (l +:+ "").
    assert (l +:+ "" = l) as -> by (clear; induction l as [|c l IH];
      [done|change (String c (l +:+ "") = String c l); by rewrite IH]).
    by rewrite H2.
  - cbn. fold (l +:+ "").
    assert (l +:+ "" = l) as -> by (clear; induction l as [|c l IH];
      [done|change (String c (l +:+ "") = String c l); by rewrite IH]).
    done.
Qed.

(** What is read again from a replaced region that was written. *)
Lemma reread_region content_rows r written :
  region_of_lines r →
  whole_lines (text_of content_rows) = true →
  reread (region_replaced content_rows r ++ written)
    = region_replaced (reread content_rows) r ++ reread written.
Proof.
  intros (Hs & _ & He & Ha) Hrows. unfold region_replaced.
  rewrite <- !(assoc_L (++)).
  rewrite (reread_app_lines [region_start r]) by (by constructor).
  rewrite reread_app_whole by done.
  rewrite (reread_app_lines [LF; region_end r]) by (by repeat constructor).
  by rewrite (reread_app_lines (region_after r)).
Qed.

Lemma reread_regions content_rows (regions : list region) :
  Forall region_of_lines regions →
  whole_lines (text_of content_rows) = true →
  reread (concat (region_replaced content_rows <$> regions))
    = concat (region_replaced (reread content_rows) <$> regions).
Proof.
  intros H Hrows. induction H as [|r regions Hr _ IH]; [done|].
  cbn [fmap list_fmap concat]. by rewrite reread_region, IH.
Qed.

(** What a run wrote, read again, and a run on it. *)
Lemma reread_rewritten content_rows before regions :
  Forall plain before → Forall region_well_formed regions →
  Forall (λ line, is_line line = true) before →
  Forall region_of_lines regions →
  whole_lines (text_of content_rows) = true →
  Forall plain (reread content_rows) →
  reread (rewritten content_rows
            (before ++ concat (region_lines <$> regions)))
    = before ++ concat (region_replaced (reread content_rows) <$> regions)
  ∧ rewritten content_rows
      (reread (rewritten content_rows
                 (before ++ concat (region_lines <$> regions))))
    = rewritten content_rows (before ++ concat (region_lines <$> regions)).
Proof.
  intros Hb Hr Hbl Hrl Hrows Hplain.
  rewrite (rewritten_document _ _ _ Hb Hr).
  assert (reread (before ++ concat (region_replaced content_rows <$> regions))
          = before
              ++ concat (region_replaced (reread content_rows) <$> regions))
    as E by (by rewrite reread_app_lines, reread_regions).
  split; [exact E|]. rewrite E.
  destruct (region_with_fmap (reread content_rows) content_rows regions)
    as [E1 _].
  destruct (region_with_fmap (reread content_rows) (reread content_rows)
              regions) as [_ E2].
  rewrite E2, rewritten_document; [by rewrite <- E1|done|].
  apply Forall_fmap. eapply Forall_impl; [exact Hr|].
  intros r. by apply region_with_well_formed.
Qed.

(** X2: a second run with the same rows changes nothing.  Take a document
    of lines without markers followed by well-formed regions, all of them
    lines as a read yields them, and content rows that make a text of whole
    lines none of which starts with a marker.  Then what is read again from
    the written file is the document with the lines of the rows in its
    regions, and patching it with the same rows writes the same strings
    as the first run. *)
Theorem second_run content_rows before regions :
  Forall plain before → Forall region_well_formed regions →
  Forall (λ line, is_line line = true) before →
  Forall region_of_lines regions →
  whole_lines (text_of content_rows) = true →
  Forall plain (reread content_rows) →
  reread (rewritten content_rows
            (before ++ concat (region_lines <$> regions)))
    = before ++ concat (region_replaced (reread content_rows) <$> regions)
  ∧ rewritten content_rows
      (reread (rewritten content_rows
                 (before ++ concat (region_lines <$> regions))))
    = rewritten content_rows (before ++ concat (region_lines <$> regions)).
Proof.
  apply reread_rewritten.
Qed.

Lemma second_run_witness :
  reread (rewritten ["X" +:+ LF +:+ "Y" +:+ LF]
            ([ "A" +:+ LF ] ++ concat (region_lines <$>
               [ Region (START_MARKER +:+ LF) ["old" +:+ LF]
                   (END_MARKER +:+ LF) ["B" +:+ LF] ])))
    = [ "A" +:+ LF; START_MARKER +:+ LF; "X" +:+ LF; "Y" +:+ LF; LF;
        END_MARKER +:+ LF; "B" +:+ LF ]
  ∧ rewritten ["X" +:+ LF +:+ "Y" +:+ LF]
      (reread (rewritten ["X" +:+ LF +:+ "Y" +:+ LF]
                 ([ "A" +:+ LF ] ++ concat (region_lines <$>
                    [ Region (START_MARKER +:+ LF) ["old" +:+ LF]
                        (END_MARKER +:+ LF) ["B" +:+ LF] ]))))
    = rewritten ["X" +:+ LF +:+ "Y" +:+ LF]
        ([ "A" +:+ LF ] ++ concat (region_lines <$>
           [ Region (START_MARKER +:+ LF) ["old" +:+ LF]
               (END_MARKER +:+ LF) ["B" +:+ LF] ])).
Proof.
  apply (second_run ["X" +:+ LF +:+ "Y" +:+ LF] ["A" +:+ LF]
           [ Region (START_MARKER +:+ LF) ["old" +:+ LF]
               (END_MARKER +:+ LF) ["B" +:+ LF] ]).
  - by repeat constructor.
  - repeat constructor.
  - by repeat constructor.
  - repeat constructor.
  - reflexivity.
  - by repeat constructor.
Defined.

(** The rows must not hold a line that starts with a marker: with a row
    whose second line starts with the end marker, the second run reads that
    line as an end marker and writes more than the first run did. *)
Example second_run_marker_inside_row :
  rewritten ["X" +:+ LF +:+ END_MARKER +:+ " fake" +:+ LF]
    [START_MARKER +:+ LF; "old" +:+ LF; END_MARKER +:+ LF]
    = [ START_MARKER +:+ LF; "X" +:+ LF +:+ END_MARKER +:+ " fake" +:+ LF;
        LF; END_MARKER +:+ LF ]
  ∧ reread (rewritten ["X" +:+ LF +:+ END_MARKER +:+ " fake" +:+ LF]
              [START_MARKER +:+ LF; "old" +:+ LF; END_MARKER +:+ LF])
    = [ START_MARKER +:+ LF; "X" +:+ LF; END_MARKER +:+ " fake" +:+ LF;
        LF; END_MARKER +:+ LF ]
  ∧ rewritten ["X" +:+ LF +:+ END_MARKER +:+ " fake" +:+ LF]
      (reread (rewritten ["X" +:+ LF +:+ END_MARKER +:+ " fake" +:+ LF]
                 [START_MARKER +:+ LF; "old" +:+ LF; END_MARKER +:+ LF]))
    = [ START_MARKER +:+ LF; "X" +:+ LF +:+ END_MARKER +:+ " fake" +:+ LF;
        LF; END_MARKER +:+ " fake" +:+ LF; LF; END_MARKER +:+ LF;
        LF; END_MARKER +:+ LF ].
Proof. by vm_compute. Qed.

(** While a replacement is open and no end marker comes, nothing of the
    file is written: only the content rows, once more for every further
    start marker. *)
Lemma emitted_unclosed content_rows rest :
  Forall (λ line, startswith line END_MARKER = false) rest →
  emitted content_rows true rest
    = concat ((λ _, content_rows)
                <$> filter (λ line, startswith line START_MARKER = true) rest).
Proof.
  induction 1 as [|line rest He _ IH]; [done|].
  rewrite emitted_cons, filter_cons.
  destruct (startswith line START_MARKER) eqn:Hs.
  - rewrite (replace_line_start _ [] true) by done. cbn [newlines repl_open].
    rewrite decide_True by done. cbn [fmap list_fmap concat]. by rewrite IH.
  - rewrite (replace_line_plain _ [] true) by done. cbn [newlines repl_open].
    rewrite decide_False by done. by rewrite IH.
Qed.

(** X3: a start marker that is never closed loses the rest of the file: the
    output ends with the content rows (repeated for every later start
    marker), and no later line of the file is written. *)
Theorem rewritten_unclosed content_rows before start_line rest :
  Forall plain before →
  startswith start_line START_MARKER = true →
  Forall (λ line, startswith line END_MARKER = false) rest →
  rewritten content_rows (before ++ start_line :: rest)
    = before ++ [start_line] ++ content_rows
        ++ concat ((λ _, content_rows)
                     <$> filter (λ line, startswith line START_MARKER = true)
                           rest).
Proof.
  intros Hb Hs Hr.
  change (rewritten content_rows) with (emitted content_rows false).
  destruct (emitted_plain content_rows false before Hb) as [E1 E2].
  rewrite emitted_app, E1, E2, emitted_cons.
  rewrite (replace_line_start _ [] false) by done. cbn [newlines repl_open].
  rewrite emitted_unclosed by done. by rewrite <- !(assoc_L (++)).
Qed.

Lemma rewritten_unclosed_witness :
  rewritten ["X" +:+ LF]
      ([ "A" +:+ LF ] ++ (START_MARKER +:+ LF) :: [ "B" +:+ LF; "C" +:+ LF ])
    = [ "A" +:+ LF; START_MARKER +:+ LF; "X" +:+ LF ].
Proof.
  apply (rewritten_unclosed ["X" +:+ LF] ["A" +:+ LF] (START_MARKER +:+ LF)
           [ "B" +:+ LF; "C" +:+ LF ]).
  - by repeat constructor.
  - reflexivity.
  - by repeat constructor.
Defined.

(** ** What the script does to the world *)

Lemma triple_ret {A} net (P : request → Prop) (Q : A → Prop) (a : A) :
  Q a → triple net P Q (mret a : M A).
Proof.
  intros HQ w _. split_and!; try done.
  - exists []. by rewrite app_nil_r.
  - by intros a' [= <-].
Qed.

Lemma triple_lift {A} net (P : request → Prop) (Q : A → Prop)
    (o : outcome A) :
  triple net P Q (lift o : M A) ↔ ∀ a, o = Return a → Q a.
Proof.
  split.
  - intros H a ->.
    destruct (H (World ∅ None net []) eq_refl) as (_ & _ & _ & _ & HQ).
    by apply HQ.
  - intros HQ w _. split_and!; try done. exists []. by rewrite app_nil_r.
Qed.

Lemma triple_bind {A B} net (P : request → Prop) (Q : A → Prop)
    (R : B → Prop) (m : M A) (k : A → M B) :
  triple net P Q m → (∀ a, Q a → triple net P R (k a)) →
  triple net P R (m ≫= k).
Proof.
  intros Hm Hk w Hw. unfold mbind, M_bind.
  destruct (Hm w Hw) as (E1 & E2 & E3 & (reqs1 & E4 & F1) & HQ).
  destruct (m w) as [[a|e| |] w1]; simpl in *.
  - destruct (Hk a (HQ a eq_refl) w1)
      as (E5 & E6 & E7 & (reqs2 & E8 & F2) & HR); [congruence|].
    split_and!; try congruence; [|exact HR].
    exists (reqs1 ++ reqs2). split; [|by apply Forall_app].
    by rewrite E8, E4, (assoc_L (++)).
  - split_and!; try done. by exists reqs1.
  - split_and!; try done. by exists reqs1.
  - split_and!; try done. by exists reqs1.
Qed.

(** After a computation that does not touch the world, what follows may
    rely on the value it returned. *)
Lemma triple_bind_lift {A B} net (P : request → Prop) (R : B → Prop)
    (o : outcome A) (k : A → M B) :
  (∀ a, o = Return a → triple net P R (k a)) → triple net P R (lift o ≫= k).
Proof.
  intros Hk. apply (triple_bind net P (λ a, o = Return a)); [|done].
  by apply triple_lift.
Qed.

(** A request is recorded, and what it returns is an answer of the
    servers to it. *)
Lemma triple_requests_get net (P : request → Prop) (u : string)
    (h : gmap string string) :
  P (Request u h) →
  triple net P (λ resp, ∃ history, net history (Request u h) = inr resp)
    (requests_get u h).
Proof.
  intros HP w Hw. unfold requests_get.
  destruct (internet w (sent w) (Request u h)) as [e|resp] eqn:E; simpl.
  - split_and!; try done. exists [Request u h]. split; [done|by constructor].
  - split_and!; try done.
    + exists [Request u h]. split; [done|by constructor].
    + intros a [= <-]. exists (sent w). by rewrite <- Hw.
Qed.

Lemma triple_client_for_repo net (P : request → Prop) (repo_slug : string) :
  P (metadata_request repo_slug) →
  triple net P (λ _, True) (client_for_repo repo_slug).
Proof.
  intros HP. unfold client_for_repo.
  eapply triple_bind; [by apply triple_requests_get|]. intros resp _.
  destruct (negb (status_code resp =? codes_ok)%Z); [by apply triple_ret|].
  apply triple_bind_lift. intros doc _.
  apply triple_bind_lift. intros client _. by apply triple_ret.
Qed.

(** What the filter has checked on a record it allows. *)
Lemma allowed_repo_checked (r : json) :
  allowed_repo r = Return true →
  ∃ repo_slug archived,
    getitem r "full_name" = Return (JStr repo_slug)
    ∧ startswith repo_slug "googleapis/python-" = true
    ∧ (repo_slug ∉ REPO_EXCLUSION)
    ∧ getitem r "archived" = Return archived
    ∧ truthy archived = false.
Proof.
  unfold allowed_repo.
  destruct (getitem r "full_name") as [v|e| |]; simpl; [|done..].
  destruct v as [| | |s| |]; simpl; try done.
  destruct (startswith s "googleapis/python-") eqn:Hp; simpl; [|done].
  destruct (bool_decide (s ∈ REPO_EXCLUSION)) eqn:Hx; simpl; [done|].
  apply bool_decide_eq_false in Hx.
  destruct (getitem r "archived") as [a|e| |]; simpl; [|done..].
  intros [= Ha]. apply negb_true_iff in Ha. exists s, a. by split_and!.
Qed.

Lemma triple_clients_batch net (token : string) (repos : list json) :
  Forall (listed net token) repos →
  triple net (script_request net token) (λ _, True) (clients_batch repos).
Proof.
  induction 1 as [|r repos Hr _ IH]; [by apply triple_ret|].
  cbn [clients_batch].
  apply triple_bind_lift. intros [|] Ha; [|exact IH].
  destruct (allowed_repo_checked r Ha)
    as (repo_slug & archived & Hn & Hp & Hx & Harch & Ht).
  apply triple_bind_lift. intros v Hv.
  apply triple_bind_lift. intros repo_slug' Hs.
  rewrite Hn in Hv. injection Hv as <-. injection Hs as <-.
  eapply triple_bind.
  - apply triple_client_for_repo. right.
    exists r, repo_slug, archived. by split_and!.
  - intros client _. eapply triple_bind; [exact IH|]. intros batch _.
    by apply triple_ret.
Qed.

Lemma triple_all_clients_loop net (token : string) (fuel : nat)
    (clients : list (option CloudClient)) (first_request : bool)
    (resp : option response) :
  (∀ r, resp = Some r → answered net token r) →
  triple net (script_request net token) (λ _, True)
    (all_clients_loop fuel token clients first_request resp).
Proof.
  revert clients first_request resp.
  induction fuel as [|fuel IH]; intros clients first_request resp Hresp;
    cbn [all_clients_loop]; apply triple_bind_lift; intros [|] _;
    try (by apply triple_ret); [by apply triple_lift|].
  apply triple_bind_lift. intros u Hu.
  assert (listing_request net token (page_request token u)) as Hurl.
  { destruct first_request; [injection Hu as <-; constructor|].
    destruct resp as [r|]; simpl in Hu; [|done].
    destruct (links r !! "next") as [u'|] eqn:Hl; [|done].
    injection Hu as <-.
    destruct (Hresp r eq_refl) as (req & history & Hreq & Hans).
    by apply (listing_next net token req history r u'). }
  eapply triple_bind.
  { apply triple_requests_get. by left. }
  intros r [history Hr]. apply triple_bind_lift. intros page Hpage.
  assert (answered net token r) as Hans
    by (by exists (page_request token u), history).
  apply triple_bind_lift. intros n _.
  destruct (n =? 0)%nat; [by apply triple_ret|].
  eapply triple_bind; [|intros batch _; apply IH; by intros ? [= <-]].
  unfold get_clients_batch_from_response_json.
  apply triple_bind_lift. intros repos Hrepos.
  apply triple_clients_batch. apply Forall_forall. intros r' Hr'.
  exists r, page, repos. split_and!; try done.
  unfold response_json in Hpage. by destruct (body r) as [?|]; simplify_eq.
Qed.

Lemma all_clients_unfold (fuel : nat) (w : world) :
  all_clients fuel w
    = match environ w !! "GITHUB_TOKEN" with
      | Some token =>
          (all_clients_loop fuel token [] true None
             ≫= λ clients, mret (omap id clients)) w
      | None => (Raise (KeyError "GITHUB_TOKEN"), w)
      end.
Proof.
  unfold all_clients. unfold mbind at 1, M_bind at 1, environ_getitem.
  by destruct (environ w !! "GITHUB_TOKEN").
Qed.

(** [all_clients] in any world, whatever the servers answer and however it
    ends: the environment, [README.rst] and the servers are as before, and
    the requests sent are requests of the script made with the token of the
    environment. *)
Lemma all_clients_sends (fuel : nat) (w : world) :
  environ (snd (all_clients fuel w)) = environ w
  ∧ README (snd (all_clients fuel w)) = README w
  ∧ internet (snd (all_clients fuel w)) = internet w
  ∧ ∃ reqs,
      sent (snd (all_clients fuel w)) = sent w ++ reqs
      ∧ Forall (λ r, ∃ token, environ w !! "GITHUB_TOKEN" = Some token
                              ∧ script_request (internet w) token r) reqs.
Proof.
  rewrite all_clients_unfold.
  destruct (environ w !! "GITHUB_TOKEN") as [token|] eqn:Ht.
  - assert (triple (internet w) (script_request (internet w) token)
              (λ _, True)
              (all_clients_loop fuel token [] true None
                 ≫= λ clients, mret (omap id clients))) as H.
    { eapply triple_bind; [by apply triple_all_clients_loop|].
      intros clients _. by apply triple_ret. }
    destruct (H w eq_refl) as (E1 & E2 & E3 & (reqs & E4 & F) & _).
    split_and!; [exact E1 | exact E2 | exact E3 |].
    exists reqs. split; [exact E4|].
    eapply Forall_impl; [exact F|]. intros r Hr. by exists token.
  - simpl. split_and!; try done. exists []. by rewrite app_nil_r.
Qed.

Lemma updateapilist_unfold (fuel : nat) (w : world) :
  updateapilist fuel w
    = match environ w !! "GITHUB_TOKEN" with
      | None =>
          (Raise (MissingGithubToken "Please include a GITHUB_TOKEN env var."),
           w)
      | Some _ =>
          match all_clients fuel w with
          | (Return clients, w') =>
              replace_content_in_readme
                (generate_table_contents (sorted clients)) w'
          | (Raise e, w') => (Raise e, w')
          | (OutOfFuel, w') => (OutOfFuel, w')
          | (Untyped, w') => (Untyped, w')
          end
      end.
Proof.
  unfold updateapilist. by destruct (environ w !! "GITHUB_TOKEN").
Qed.

(** X4: [README.rst] is not opened before [all_clients] has returned: when
    [all_clients] ends with an exception (a failed request, a page or a
    metadata document that cannot be used), the script ends with that
    exception, and the file and the environment are as they were. *)
Theorem updateapilist_fetch_failure (fuel : nat) (w : world)
    (token : string) (e : exn) :
  environ w !! "GITHUB_TOKEN" = Some token →
  fst (all_clients fuel w) = Raise e →
  fst (updateapilist fuel w) = Raise e
  ∧ README (snd (updateapilist fuel w)) = README w
  ∧ environ (snd (updateapilist fuel w)) = environ w.
Proof.
  intros Ht He. rewrite updateapilist_unfold, Ht.
  destruct (all_clients_sends fuel w) as (E1 & E2 & _).
  by destruct (all_clients fuel w) as [[clients|e'| |] w1]; simplify_eq/=.
Qed.

Lemma updateapilist_fetch_failure_witness :
  fst (updateapilist 3 bad_credentials_world) = Raise TypeError
  ∧ README (snd (updateapilist 3 bad_credentials_world))
    = README bad_credentials_world
  ∧ environ (snd (updateapilist 3 bad_credentials_world))
    = environ bad_credentials_world.
Proof.
  apply (updateapilist_fetch_failure 3 bad_credentials_world "expired");
    reflexivity.
Defined.


(** ** The listing: endless pagination, error documents, empty pages *)

Lemma clients_batch_refused (w : world) (repos : list json) :
  Forall (λ r, allowed_repo r = Return false) repos →
  clients_batch repos w = (Return [], w).
Proof.
  induction 1 as [|r repos Hr _ IH]; [done|].
  cbn [clients_batch]. bind_lift. by rewrite Hr.
Qed.

Lemma all_clients_loop_endless (w : world) (token : string) :
  (∀ u, ∃ resp repos u',
     answers (internet w) (page_request token u) resp
     ∧ body resp = Some (JList repos) ∧ repos ≠ []
     ∧ Forall (λ r, allowed_repo r = Return false) repos
     ∧ links resp !! "next" = Some u') →
  ∀ fuel w' clients first_request resp0,
    internet w' = internet w →
    (first_request = true
     ∨ first_request = false
       ∧ ∃ r u, resp0 = Some r ∧ links r !! "next" = Some u) →
    fst (all_clients_loop fuel token clients first_request resp0 w')
      = OutOfFuel.
Proof.
  intros Hnet fuel.
  induction fuel as [|fuel IH]; intros w' clients first_request resp0 Hw Hst.
  - cbn [all_clients_loop]. bind_lift.
    destruct Hst as [-> | [-> (r & u & -> & Hl)]]; [done|]. by rewrite Hl.
  - assert (∃ u, next_page first_request resp0 u) as [u Hu].
    { destruct Hst as [-> | [-> (r & u & -> & Hl)]].
      - exists REPO_LIST_JSON_page_1. by left.
      - exists u. right. eauto. }
    destruct (Hnet u) as (resp & repos & u' & Hr & Hb & Hne & Hall & Hl).
    rewrite <- Hw in Hr.
    rewrite (all_clients_loop_step _ _ _ _ _ _ _ _ _ Hu Hr Hb).
    bind_lift. cbn [len]. destruct repos as [|r repos]; [done|].
    cbn [length Nat.eqb].
    unfold get_clients_batch_from_response_json.
    unfold mbind at 1, M_bind at 1. bind_lift. cbn [iterate].
    rewrite (clients_batch_refused _ _ Hall). cbv beta iota.
    apply IH; [done|]. right. eauto.
Qed.

(** X6: the loop of [all_clients] has no bound of its own: while the servers
    answer every page of the listing with a page that is not empty and has
    a "next" link, it goes on, whatever the number of iterations allowed.
    (The pages here hold only repositories that the filter refuses.) *)
Theorem all_clients_endless (w : world) (token : string) (fuel : nat) :
  environ w !! "GITHUB_TOKEN" = Some token →
  (∀ u, ∃ resp repos u',
     answers (internet w) (page_request token u) resp
     ∧ body resp = Some (JList repos) ∧ repos ≠ []
     ∧ Forall (λ r, allowed_repo r = Return false) repos
     ∧ links resp !! "next" = Some u') →
  fst (all_clients fuel w) = OutOfFuel
  ∧ fst (updateapilist fuel w) = OutOfFuel.
Proof.
  intros Ht Hnet.
  assert (fst (all_clients fuel w) = OutOfFuel) as H.
  { rewrite all_clients_unfold, Ht. unfold mbind, M_bind.
    pose proof (all_clients_loop_endless w token Hnet fuel w [] true None
                  eq_refl (or_introl eq_refl)) as H.
    by destruct (all_clients_loop fuel token [] true None w) as [[?|?| |] ?]. }
  split; [done|].
  rewrite updateapilist_unfold, Ht.
  by destruct (all_clients fuel w) as [[?|?| |] ?].
Qed.

Lemma all_clients_endless_witness :
  fst (all_clients 7
         (World {[ "GITHUB_TOKEN" := "secret" ]} None endless_internet []))
    = OutOfFuel
  ∧ fst (updateapilist 7
           (World {[ "GITHUB_TOKEN" := "secret" ]} None endless_internet []))
    = OutOfFuel.
Proof.
  apply (all_clients_endless
           (World {[ "GITHUB_TOKEN" := "secret" ]} None endless_internet [])
           "secret" 7); [reflexivity|].
  intros u.
  exists (Response 200
            (Some (JList [sample_summary "googleapis/java-storage"]))
            {[ "next" := u +:+ "&again" ]}),
    [sample_summary "googleapis/java-storage"], (u +:+ "&again").
  split_and!; [by intros h | reflexivity | discriminate | | ].
  - by repeat constructor.
  - apply lookup_singleton_eq.
Defined.

Lemma all_clients_first_page (fuel : nat) (w : world) (token : string)
    (resp : response) (page : json) :
  environ w !! "GITHUB_TOKEN" = Some token →
  internet w (sent w) (page_request token REPO_LIST_JSON_page_1) = inr resp →
  body resp = Some page →
  all_clients (S fuel) w
    = ((n ← lift (len page);
        if (n =? 0)%nat then mret []
        else
          batch ← get_clients_batch_from_response_json page;
          all_clients_loop fuel token ([] ++ batch) false (Some resp))
         ≫= λ clients, mret (omap id clients))
        (after_requests w [page_request token REPO_LIST_JSON_page_1]).
Proof.
  intros Ht Hr Hb. rewrite all_clients_unfold, Ht.
  unfold mbind at 1, M_bind at 1. cbn [all_clients_loop].
  bind_lift. bind_lift.
  unfold mbind at 1, M_bind at 1, requests_get.
  change (Request REPO_LIST_JSON_page_1
            {[ "Authorization" := "token " +:+ token ]})
    with (page_request token REPO_LIST_JSON_page_1).
  rewrite Hr. bind_lift; unfold response_json. by rewrite Hb.
Qed.

(** X7: when the servers answer the first page with a JSON object that is not
    empty (as GitHub does to report an error) instead of a list,
    [all_clients] ends with [TypeError] after that one request, and the
    script with it. *)
Theorem all_clients_error_document (fuel : nat) (w : world) (token : string)
    (resp : response) (d : gmap string json) :
  environ w !! "GITHUB_TOKEN" = Some token →
  internet w (sent w) (page_request token REPO_LIST_JSON_page_1) = inr resp →
  body resp = Some (JDict d) →
  d ≠ ∅ →
  all_clients (S fuel) w
    = (Raise TypeError,
       after_requests w [page_request token REPO_LIST_JSON_page_1])
  ∧ updateapilist (S fuel) w
    = (Raise TypeError,
       after_requests w [page_request token REPO_LIST_JSON_page_1]).
Proof.
  intros Ht Hr Hb Hd.
  assert (all_clients (S fuel) w
          = (Raise TypeError,
             after_requests w [page_request token REPO_LIST_JSON_page_1]))
    as H.
  { rewrite (all_clients_first_page _ _ _ _ _ Ht Hr Hb).
    unfold mbind at 1, M_bind at 1. bind_lift. cbn [len].
    unfold get_clients_batch_from_response_json. cbn [iterate].
    unfold size, set_size. simpl.
    destruct (elements (dom d)) as [|k ks] eqn:E.
    { apply elements_empty_inv, leibniz_equiv, dom_empty_inv_L in E.
      done. }
    cbn [length Nat.eqb fmap list_fmap].
    unfold mbind at 1, M_bind at 1. bind_lift. cbn [clients_batch].
    by bind_lift. }
  split; [done|]. by rewrite updateapilist_unfold, Ht, H.
Qed.

Lemma all_clients_error_document_witness :
  all_clients 3 bad_credentials_world
    = (Raise TypeError,
       after_requests bad_credentials_world
         [page_request "expired" REPO_LIST_JSON_page_1]).
Proof.
  apply (all_clients_error_document 2 bad_credentials_world "expired"
           (Response 401 (Some (JDict bad_credentials)) ∅) bad_credentials);
    [reflexivity..|].
  apply insert_non_empty.
Defined.

(** ** Metadata that cannot be used *)

(** [CloudClient.__init__] raises in these cases only, tested in this
    order: the document is not a dict; it has no "repo"; it has no
    "name_pretty"; its pretty name is not a string; it has no
    "release_level"; it has no "distribution_name". *)
Lemma CloudClient_init_raises (doc : json) (e : exn) :
  CloudClient_init doc = Raise e ↔
    ((∀ d, doc ≠ JDict d) ∧ e = TypeError)
    ∨ ∃ d, doc = JDict d
        ∧ ((d !! "repo" = None ∧ e = KeyError "repo")
           ∨ (is_Some (d !! "repo")
              ∧ ((d !! "name_pretty" = None ∧ e = KeyError "name_pretty")
                 ∨ (∃ v, d !! "name_pretty" = Some v
                         ∧ (∀ s, v ≠ JStr s) ∧ e = AttributeError)
                 ∨ ((∃ s, d !! "name_pretty" = Some (JStr s))
                    ∧ ((d !! "release_level" = None
                        ∧ e = KeyError "release_level")
                       ∨ (is_Some (d !! "release_level")
                          ∧ d !! "distribution_name" = None
                          ∧ e = KeyError "distribution_name")))))).
Proof.
  unfold CloudClient_init. split.
  - destruct doc as [| | | | |d]; simpl;
      try (intros [= <-]; left; by split).
    intros H. right. exists d. split; [done|]. revert H.
    destruct (d !! "repo") as [v1|] eqn:H1; simpl;
      [|intros [= <-]; by left].
    intros H. right. split; [done|]. revert H.
    destruct (d !! "name_pretty") as [v2|] eqn:H2; simpl;
      [|intros [= <-]; by left].
    destruct v2 as [| | |s2| |]; simpl;
      try (intros [= <-]; right; left; eexists; by split_and!).
    intros H. right; right. split; [by exists s2|]. revert H.
    destruct (d !! "release_level") as [v3|] eqn:H3; simpl;
      [|intros [= <-]; by left].
    destruct (d !! "distribution_name") as [v4|] eqn:H4; simpl;
      [|intros [= <-]; by right].
    destruct v1, v3, v4; simpl; done.
  - intros [[Hd ->] | (d & -> & H)]; simpl.
    { destruct doc; try done. by destruct (Hd d). }
    destruct H as [[H1 ->] | [[v1 H1] H]]; rewrite H1; simpl; [done|].
    destruct H as [[H2 ->] | [(v2 & H2 & Hv & ->) | [[s2 H2] H]]];
      rewrite H2; simpl; [done | | ].
    { destruct v2; try done. by destruct (Hv s). }
    destruct H as [[H3 ->] | ([v3 H3] & H4 & ->)]; rewrite H3; simpl; [done|].
    by rewrite H4.
Qed.

Lemma clients_batch_app_raise (w : world) (repos : list json)
    (clients : list (option CloudClient)) (reqs : list request)
    (rest : list json) (e : exn) (w' : world) :
  batch_of (internet w) repos clients reqs →
  clients_batch rest (after_requests w reqs) = (Raise e, w') →
  clients_batch (repos ++ rest) w = (Raise e, w').
Proof.
  remember (internet w) as net eqn:Hnet. intros H. revert w Hnet.
  induction H as [|r repos clients reqs Ha _ IH
                  |r repo_slug repos client clients reqs Ha Hn Hf _ IH];
    intros w -> Hrest.
  - by rewrite after_requests_nil in Hrest.
  - cbn [app clients_batch]. bind_lift. rewrite Ha. by apply IH.
  - cbn [app clients_batch]. bind_lift. rewrite Ha.
    bind_lift. rewrite Hn. bind_lift; unfold str_method.
    rewrite (M_bind_return _ _ _ _ _ (client_for_repo_fetched _ _ _ Hf)).
    unfold mbind at 1, M_bind at 1.
    rewrite (IH (after_requests w [metadata_request repo_slug]) eq_refl);
      [done|].
    by rewrite after_requests_app.
Qed.

(** X8: a repository whose metadata request succeeds with a document that no
    descriptor can be built from (a key is missing, say) is not skipped:
    the exception of [CloudClient.__init__] ends the batch, after the
    requests for the repositories before it and its own, and the
    repositories after it are not requested. *)
Theorem clients_batch_unusable_metadata (w : world) (repos : list json)
    (clients : list (option CloudClient)) (reqs : list request)
    (r : json) (repo_slug : string) (resp : response) (doc : json) (e : exn)
    (rest : list json) :
  batch_of (internet w) repos clients reqs →
  allowed_repo r = Return true →
  getitem r "full_name" = Return (JStr repo_slug) →
  answers (internet w) (metadata_request repo_slug) resp →
  status_code resp = codes_ok →
  body resp = Some doc →
  CloudClient_init doc = Raise e →
  clients_batch (repos ++ r :: rest) w
    = (Raise e, after_requests w (reqs ++ [metadata_request repo_slug])).
Proof.
  intros Hb Ha Hn Hr Hs Hd He.
  apply (clients_batch_app_raise _ _ _ _ _ _ _ Hb).
  cbn [clients_batch]. bind_lift. rewrite Ha. bind_lift. rewrite Hn.
  bind_lift; unfold str_method.
  unfold mbind at 1, M_bind at 1. unfold client_for_repo.
  rewrite (M_bind_return _ _ _ _ _
             (requests_get_answers (after_requests w reqs) _ _ _ Hr)).
  apply Z.eqb_eq in Hs. rewrite Hs. cbn [negb].
  bind_lift; unfold response_json. rewrite Hd. bind_lift. rewrite He.
  by rewrite after_requests_app.
Qed.

Lemma clients_batch_unusable_metadata_witness :
  clients_batch
      ([] ++ sample_summary "googleapis/python-storage"
          :: [sample_summary "googleapis/python-bigquery"])
      (World ∅ None incomplete_internet [])
    = (Raise (KeyError "distribution_name"),
       after_requests (World ∅ None incomplete_internet [])
         ([] ++ [metadata_request "googleapis/python-storage"])).
Proof.
  apply (clients_batch_unusable_metadata
           (World ∅ None incomplete_internet []) [] [] []
           (sample_summary "googleapis/python-storage")
           "googleapis/python-storage"
           (Response 200
              (Some (JDict {[ "repo" := JStr "googleapis/python-storage";
                              "name_pretty" := JStr "Google Cloud Storage";
                              "release_level" := JStr "stable" ]}))
              ∅)
           (JDict {[ "repo" := JStr "googleapis/python-storage";
                     "name_pretty" := JStr "Google Cloud Storage";
                     "release_level" := JStr "stable" ]})
           (KeyError "distribution_name")
           [sample_summary "googleapis/python-bigquery"]);
    try reflexivity.
  - constructor.
  - by intros h.
Defined.

(** ** Empty listing, missing file *)

(** X9: an empty first page ends the listing at once, whether or not it has a
    "next" link: one request is sent, there is no descriptor, and the
    region of [README.rst] is replaced by the table header alone. *)
Theorem all_clients_empty_first_page (fuel : nat) (w : world)
    (token : string) (resp : response) :
  environ w !! "GITHUB_TOKEN" = Some token →
  internet w (sent w) (page_request token REPO_LIST_JSON_page_1) = inr resp →
  body resp = Some (JList []) →
  all_clients (S fuel) w
    = (Return [], after_requests w [page_request token REPO_LIST_JSON_page_1])
  ∧ ∀ f, README w = Some f →
      updateapilist (S fuel) w
        = (Return (),
           World (environ w) (Some (rewritten (table_header ++ [LF]) f))
             (internet w)
             (sent w ++ [page_request token REPO_LIST_JSON_page_1])).
Proof.
  intros Ht Hr Hb.
  assert (all_clients (S fuel) w
          = (Return [],
             after_requests w [page_request token REPO_LIST_JSON_page_1]))
    as H by (by rewrite (all_clients_first_page _ _ _ _ _ Ht Hr Hb)).
  split; [done|]. intros f Hf.
  rewrite updateapilist_unfold, Ht, H.
  by rewrite (replace_content_in_readme_rewrites _ _ f).
Qed.

Lemma all_clients_empty_first_page_witness :
  all_clients 1
      (World {[ "GITHUB_TOKEN" := "secret" ]} None
         (λ _ r, inr (Response 200 (Some (JList []))
                        {[ "next" := sample_page_2 ]}))
         [])
    = (Return [],
       after_requests
         (World {[ "GITHUB_TOKEN" := "secret" ]} None
            (λ _ r, inr (Response 200 (Some (JList []))
                           {[ "next" := sample_page_2 ]}))
            [])
         [page_request "secret" REPO_LIST_JSON_page_1]).
Proof.
  apply (all_clients_empty_first_page 0
           (World {[ "GITHUB_TOKEN" := "secret" ]} None
              (λ _ r, inr (Response 200 (Some (JList []))
                             {[ "next" := sample_page_2 ]}))
              [])
           "secret"
           (Response 200 (Some (JList [])) {[ "next" := sample_page_2 ]}));
    reflexivity.
Defined.

(** X10: [README.rst] is opened only after the whole listing has been fetched:
    when the file is missing, the script sends every request and then ends
    with [FileNotFoundError]. *)
Theorem updateapilist_missing_readme (fuel : nat) (w : world)
    (token : string) (collected : list (option CloudClient))
    (reqs : list request) (k : nat) :
  environ w !! "GITHUB_TOKEN" = Some token →
  pages_from (internet w) token REPO_LIST_JSON_page_1 collected reqs k →
  k ≤ fuel →
  README w = None →
  updateapilist fuel w = (Raise FileNotFoundError, after_requests w reqs).
Proof.
  intros Ht Hp Hk Hf.
  rewrite updateapilist_unfold, Ht.
  rewrite (all_clients_spec _ _ _ _ _ _ Ht Hp Hk).
  unfold replace_content_in_readme. cbn [README after_requests].
  by rewrite Hf.
Qed.

Lemma updateapilist_missing_readme_witness :
  updateapilist 2 (World {[ "GITHUB_TOKEN" := "secret" ]} None
                     sample_internet [])
    = (Raise FileNotFoundError,
       after_requests
         (World {[ "GITHUB_TOKEN" := "secret" ]} None sample_internet [])
         [ page_request "secret" REPO_LIST_JSON_page_1;
           metadata_request "googleapis/python-bigquery";
           metadata_request "googleapis/python-missing";
           page_request "secret" sample_page_2;
           metadata_request "googleapis/python-storage" ]).
Proof.
  apply (updateapilist_missing_readme 2
           (World {[ "GITHUB_TOKEN" := "secret" ]} None sample_internet [])
           "secret" [Some sample_bigquery; None; Some sample_storage]
           [ page_request "secret" REPO_LIST_JSON_page_1;
             metadata_request "googleapis/python-bigquery";
             metadata_request "googleapis/python-missing";
             page_request "secret" sample_page_2;
             metadata_request "googleapis/python-storage" ] 2);
    [reflexivity | exact sample_pages | lia | reflexivity].
Defined.

(** ** [sorted]: sorted input, order of the input *)

Lemma sorted_of_sorted (l : list CloudClient) :
  StronglySorted not_after l → sorted l = l.
Proof.
  induction 1 as [|x l _ IH Hx]; [done|].
  simpl. rewrite IH. destruct l as [|y l]; [done|]. simpl.
  apply Forall_cons_1 in Hx as [Hy _]. unfold not_after in Hy.
  by rewrite Hy.
Qed.

(** X12: sorting a sorted list gives it back; in particular sorting twice
    is sorting once. *)
Theorem sorted_idempotent (l : list CloudClient) :
  sorted (sorted l) = sorted l
  ∧ (StronglySorted not_after l → sorted l = l).
Proof.
  split; [|apply sorted_of_sorted].
  apply sorted_of_sorted, sorted_sorted.
Qed.

(** X13: when no two descriptors of the list share release level and
    title, the sorted list does not depend on the order in which the
    descriptors were collected. *)
Theorem sorted_order_independent (l l' : list CloudClient) :
  (∀ a b, a ∈ l → b ∈ l → sort_key a = sort_key b → a = b) →
  l ≡ₚ l' →
  sorted l = sorted l'.
Proof.
  intros Hkey Hperm.
  apply (StronglySorted_unique_strong not_after);
    [|apply sorted_sorted..|by rewrite !sorted_perm].
  intros a b Ha Hb Hab Hba.
  rewrite sorted_perm in Ha. rewrite sorted_perm, <- Hperm in Hb.
  apply Hkey; [done..|]. unfold not_after, sort_key in *.
  destruct (CloudClient_lt_total a b) as [H|[H|[E1 E2]]]; [congruence..|].
  by rewrite E1, E2.
Qed.

Lemma sorted_order_independent_witness :
  sorted [sample_bigquery; sample_storage]
    = sorted [sample_storage; sample_bigquery].
Proof.
  apply sorted_order_independent; [|apply Permutation_swap].
  intros a b Ha Hb.
  apply elem_of_cons in Ha as [->|Ha];
    [|apply list_elem_of_singleton in Ha as ->];
    (apply elem_of_cons in Hb as [->|Hb];
       [|apply list_elem_of_singleton in Hb as ->]);
    by intros [=].
Defined.

(** ** The table generator and the markers *)

(** X14: no string that [generate_table_contents] returns starts with a
    marker, whatever the fields of the descriptors hold. *)
Theorem generate_table_contents_plain (clients : list CloudClient) :
  Forall plain (generate_table_contents clients).
Proof.
  rewrite generate_table_contents_unfold.
  apply Forall_app. split; [by repeat constructor|].
  apply Forall_app. split.
  - induction clients as [|c clients IH]; [constructor|].
    cbn [flat_map]. apply Forall_app. split; [|done].
    by repeat constructor.
  - constructor; [done|]. apply Forall_fmap, Forall_forall. by intros c _.
Qed.

(** ** [str.replace]: what a removal keeps *)

Lemma replace_from_sublist (old : string) (skip : nat) (s : string) :
  chars (replace_from old "" skip s) `sublist_of` chars s.
Proof.
  revert skip. induction s as [|c s IH]; intros skip; [done|].
  cbn [replace_from]. destruct skip as [|skip].
  - destruct (String.prefix old (String c s)).
    + apply sublist_cons, IH.
    + apply sublist_skip, IH.
  - apply sublist_cons, IH.
Qed.

Lemma replace_empty_nil (s : string) : replace_empty "" s = s.
Proof. induction s as [|c s IH]; [done|]. cbn. by rewrite IH. Qed.

(** X15: replacing by the empty string only deletes characters: the result
    is a subsequence of the string; so the title of a descriptor is a
    subsequence of the pretty name it is built from. *)
Theorem replace_deletes_only (s old : string) :
  chars (replace s old "") `sublist_of` chars s
  ∧ chars (replace (replace s "Google " "") "Cloud " "")
      `sublist_of` chars s.
Proof.
  assert (∀ s old, chars (replace s old "") `sublist_of` chars s) as H.
  { intros s' [|c old']; unfold replace.
    - by rewrite replace_empty_nil.
    - apply replace_from_sublist. }
  split; [apply H|]. etrans; apply H.
Qed.

Lemma occursb_occurs (old s : string) :
  occurs old s ↔ occursb old s = true.
Proof.
  split.
  - intros (p & q & ->). induction p as [|c p IH].
    + change ("" +:+ old +:+ q) with (old +:+ q).
      destruct (old +:+ q) eqn:E; cbn [occursb];
        rewrite <- E, prefix_refl_append; done.
    + change (String c p +:+ old +:+ q) with (String c (p +:+ old +:+ q)).
      cbn [occursb]. rewrite IH. apply orb_true_r.
  - induction s as [|c s IH]; cbn [occursb]; intros H.
    + rewrite orb_false_r in H.
      apply prefix_append in H as [r Hr]. by exists "", r.
    + apply orb_true_iff in H as [H|H].
      * apply prefix_append in H as [r Hr]. by exists "", r.
      * destruct (IH H) as (p & q & ->). by exists (String c p), q.
Qed.

(** X16: a string in which the pattern does not occur is left as it is; a
    pretty name with neither "Google " nor "Cloud " in it is the title. *)
Theorem replace_absent (s old new : string) :
  ¬ occurs old s → replace s old new = s.
Proof.
  intros H.
  assert (old ≠ "") as Hold.
  { intros ->. apply H. by exists "", s. }
  induction s as [|c s IH]; [by apply replace_nil|].
  rewrite replace_other; [f_equal; apply IH| done |].
  - intros (p & q & ->). apply H. by exists (String c p), q.
  - destruct (String.prefix old (String c s)) eqn:E; [|done].
    apply prefix_append in E as [r Hr]. destruct H. by exists "", r.
Qed.

Lemma replace_absent_witness :
  replace (replace "BigQuery" "Google " "") "Cloud " "" = "BigQuery".
Proof.
  rewrite (replace_absent "BigQuery" "Google " "").
  - apply (replace_absent "BigQuery" "Cloud " "").
    rewrite occursb_occurs. by vm_compute.
  - rewrite occursb_occurs. by vm_compute.
Defined.

(** ** The filter: when it raises *)

(** X17: [allowed_repo] raises in four cases only: the record is not a
    dict ([TypeError]); it has no "full_name" ([KeyError]); its full name is
    not a string ([AttributeError]); or its full name passes the prefix and
    exclusion tests and it has no "archived" ([KeyError]).  A record whose
    name fails one of the two tests is refused without looking at
    "archived". *)
Theorem allowed_repo_raises (r : json) (e : exn) :
  allowed_repo r = Raise e ↔
    ((∀ d, r ≠ JDict d) ∧ e = TypeError)
    ∨ (∃ d, r = JDict d ∧ d !! "full_name" = None
            ∧ e = KeyError "full_name")
    ∨ (∃ d v, r = JDict d ∧ d !! "full_name" = Some v
              ∧ (∀ s, v ≠ JStr s) ∧ e = AttributeError)
    ∨ (∃ d s, r = JDict d ∧ d !! "full_name" = Some (JStr s)
              ∧ startswith s "googleapis/python-" = true
              ∧ (s ∉ REPO_EXCLUSION)
              ∧ d !! "archived" = None
              ∧ e = KeyError "archived").
Proof.
  unfold allowed_repo. split.
  - destruct r as [| | | | |d]; simpl;
      try (intros [= <-]; left; by split).
    destruct (d !! "full_name") as [v|] eqn:Hn; simpl.
    + destruct v as [| | |s| |]; simpl;
        try (intros [= <-]; right; right; left; exists d; eexists;
             by split_and!).
      destruct (startswith s "googleapis/python-") eqn:Hp; simpl; [|done].
      destruct (bool_decide (s ∈ REPO_EXCLUSION)) eqn:Hx; simpl; [done|].
      apply bool_decide_eq_false in Hx.
      destruct (d !! "archived") as [a|] eqn:Ha; simpl; [done|].
      intros [= <-]. right; right; right. exists d, s. by split_and!.
    + intros [= <-]. right; left. by exists d.
  - intros [[Hd ->] | [(d & -> & Hn & ->) | [(d & v & -> & Hn & Hv & ->)
            | (d & s & -> & Hn & Hp & Hx & Ha & ->)]]]; simpl.
    + destruct r; try done. by destruct (Hd d).
    + by rewrite Hn.
    + rewrite Hn; simpl. destruct v; try done. by destruct (Hv s).
    + rewrite Hn; simpl. rewrite Hp; simpl.
      rewrite bool_decide_eq_false_2 by done. simpl. by rewrite Ha.
Qed.

(** ** A second run with the generated table *)














